(** * Verification of the QA detectors of app.py (Translation QA for Traditional Chinese)

    A Python [str] is modelled as the list of its code points ([list Z]),
    indexed exactly as Python indexes it.  The [re] patterns of the source
    are embedded as hand-written matchers, one per pattern, and
    [re.finditer] as the generic non-overlapping left-to-right scanner
    [finditer] below. *)

From Stdlib Require Import ZArith List Bool String Lia.
From Stdlib Require Import Sorting.Sorted.
Import ListNotations.
Open Scope Z_scope.

Definition text := list Z.

(** ** Character classes *)

(** The class [[\u4e00-\u9fff]]. *)
Definition is_cjk (c : Z) : bool := (19968 <=? c) && (c <=? 40959).

(** The class [[ \t]]. *)
Definition is_space_tab (c : Z) : bool := (c =? 32) || (c =? 9).

(** The full-width space U+3000. *)
Definition is_fullwidth_space (c : Z) : bool := c =? 12288.

(** Length of the longest prefix of [s] whose characters all satisfy [p]
    (the greedy repetition [p+] / [p*]). *)
Fixpoint span (p : Z -> bool) (s : text) : nat :=
  match s with
  | [] => O
  | c :: s' => if p c then S (span p s') else O
  end.

(** ** [re.finditer]

    A matcher looks at the suffix of the text starting at the current
    position and returns the length of the match found there (always
    positive for the patterns of this file) with the data the caller
    extracts from the match object.  [finditer_from m skip i s]: [i] is the
    position of the head of [s]; [skip] is the number of characters still
    covered by the previous match.  After a match of length [n] at [i] the
    search resumes at [i + n], as [re.finditer] does for non-empty matches;
    after a failure it resumes at [i + 1]. *)
Section Finditer.
Context {A : Type}.
Variable m : text -> option (nat * A).

Fixpoint finditer_from (skip : nat) (i : Z) (s : text) : list (Z * A) :=
  match s with
  | [] => []
  | _ :: s' =>
      match skip with
      | S k => finditer_from k (i + 1) s'
      | O =>
          match m s with
          | Some (n, a) => (i, a) :: finditer_from (Nat.pred n) (i + 1) s'
          | None => finditer_from O (i + 1) s'
          end
      end
  end.

Definition finditer (s : text) : list (Z * A) := finditer_from O 0 s.
End Finditer.

(** ** check_extra_spaces *)

(** Matcher of [([\u4e00-\u9fff])[ \t]+([\u4e00-\u9fff])], parametrised by
    the class of the repeated middle character.  The greedy [+] takes the
    maximal run; giving back characters cannot help, since the character
    after a shorter run is again a member of the run class and so not an
    ideograph.  The data returned is [m.group(0)]. *)
Definition match_cjk_gap (gap : Z -> bool) (s : text) : option (nat * text) :=
  match s with
  | c0 :: rest =>
      if is_cjk c0 then
        let k := span gap rest in
        match k with
        | O => None
        | S _ =>
            match nth_error rest k with
            | Some c1 => if is_cjk c1 then Some (S (S k), firstn (S (S k)) s) else None
            | None => None
            end
        end
      else None
  | [] => None
  end.

(** A finding of [check_extra_spaces] or [check_duplicate_footnotes]:
    [(m.start(0), len(m.group(0)), m.group(0))]. *)
Definition finding : Type := (Z * Z * text)%type.

Definition to_finding (p : Z * (nat * text)) : finding :=
  let '(i, (n, g)) := p in (i, Z.of_nat n, g).

Definition match_with_len (mt : text -> option (nat * text)) (s : text)
  : option (nat * (nat * text)) :=
  match mt s with
  | Some (n, g) => Some (n, (n, g))
  | None => None
  end.

Definition check_extra_spaces (t : text) : list finding :=
  let findings := map to_finding (finditer (match_with_len (match_cjk_gap is_space_tab)) t) in
  findings ++ map to_finding (finditer (match_with_len (match_cjk_gap is_fullwidth_space)) t).

(** ** check_typos *)

(** An issue of [check_typos]: [(position, length, token, note)]. *)
Definition typo : Type := (Z * Z * text * string)%type.

Definition note_ascii : string := "ASCII punctuation between CJK characters".
Definition note_repeated : string := "Repeated punctuation".
Definition note_unexpected : string := "Unexpected closing bracket/quote".
Definition note_unclosed : string := "Unclosed opening bracket/quote".
Definition note_zw : string := "Zero-width/BOM character".

(** [ascii_punct]: comma, full stop, semicolon, colon, exclamation and
    question marks, both parentheses, both square brackets, both curly
    brackets, double quote, single quote. *)
Definition ascii_punct : list Z := [44; 46; 59; 58; 33; 63; 41; 40; 91; 93; 123; 125; 34; 39].

Definition in_set (l : list Z) (c : Z) : bool := existsb (Z.eqb c) l.

(** Matcher of [([\u4e00-\u9fff])([{ascii_punct}])([\u4e00-\u9fff])];
    returns [m.group(2)], the punctuation character. *)
Definition match_ascii_punct (s : text) : option (nat * Z) :=
  match s with
  | c0 :: c1 :: c2 :: _ =>
      if is_cjk c0 && in_set ascii_punct c1 && is_cjk c2 then Some (3%nat, c1) else None
  | _ => None
  end.

(** The class [[，。；：？！、]]. *)
Definition cjk_punct : list Z := [65292; 12290; 65307; 65306; 65311; 65281; 12289].

(** Matcher of [([，。；：？！、])\1+]; returns [m.group(0)]. *)
Definition match_repeated (s : text) : option (nat * text) :=
  match s with
  | c0 :: rest =>
      if in_set cjk_punct c0 then
        match span (Z.eqb c0) rest with
        | O => None
        | S k => Some (S (S k), firstn (S (S k)) s)
        end
      else None
  | [] => None
  end.

(** The dict [pairs]: （ to ）, 《 to 》, 「 to 」, 『 to 』, 【 to 】,
    ( to ), [ to ], { to }. *)
Definition pairs : list (Z * Z) :=
  [(65288, 65289); (12298, 12299); (12300, 12301); (12302, 12303); (12304, 12305);
   (40, 41); (91, 93); (123, 125)].

Definition opens : list Z := map fst pairs.
Definition closes : list Z := map snd pairs.

(** [pairs.get(ch)] *)
Fixpoint pairs_get (ps : list (Z * Z)) (ch : Z) : option Z :=
  match ps with
  | [] => None
  | (o, c) :: ps' => if o =? ch then Some c else pairs_get ps' ch
  end.

(** The Python list [stack] of [(ch, i)] pairs, its top [stack[-1]] kept
    at the head. *)
Definition stack : Type := list (Z * Z).

(** The loop [for i, ch in enumerate(text)] of the bracket check; [i] is
    the index of the head of [s], [issues] the issues appended so far. *)
Fixpoint bracket_loop (i : Z) (s : text) (stk : stack) (issues : list typo)
  : stack * list typo :=
  match s with
  | [] => (stk, issues)
  | ch :: s' =>
      if in_set opens ch then bracket_loop (i + 1) s' ((ch, i) :: stk) issues
      else if in_set closes ch then
        match stk with
        | [] => bracket_loop (i + 1) s' stk (issues ++ [(i, 1, [ch], note_unexpected)])
        | (top, _) :: stk' =>
            match pairs_get pairs top with
            | Some c => if c =? ch then bracket_loop (i + 1) s' stk' issues
                        else bracket_loop (i + 1) s' stk (issues ++ [(i, 1, [ch], note_unexpected)])
            | None => bracket_loop (i + 1) s' stk (issues ++ [(i, 1, [ch], note_unexpected)])
            end
        end
      else bracket_loop (i + 1) s' stk issues
  end.

(** [for ch, pos in stack: issues.append((pos, 1, ch, ...))]: bottom of
    the stack first, i.e. in push order. *)
Definition unclosed_issues (stk : stack) : list typo :=
  map (fun '(ch, pos) => (pos, 1, [ch], note_unclosed)) (rev stk).

(** The loop [for zw in [...]: for m in re.finditer(zw, text)] over
    U+200B, U+200C, U+200D and U+FEFF. *)
Definition zero_width : list Z := [8203; 8204; 8205; 65279].

Definition match_char (zw : Z) (s : text) : option (nat * unit) :=
  match s with
  | c :: _ => if c =? zw then Some (1%nat, tt) else None
  | [] => None
  end.

Definition check_typos (t : text) : list typo :=
  let issues := map (fun '(i, c) => (i + 1, 1, [c], note_ascii)) (finditer match_ascii_punct t) in
  let issues := issues ++ map (fun p => let '(i, (n, g)) := p in (i, Z.of_nat n, g, note_repeated))
                                (finditer (match_with_len match_repeated) t) in
  let '(stk, issues) := bracket_loop 0 t [] issues in
  let issues := issues ++ unclosed_issues stk in
  issues ++ flat_map (fun zw => map (fun '(i, _) => (i, 1, [zw], note_zw))
                                    (finditer (match_char zw) t)) zero_width.

(** ** check_duplicate_footnotes *)

(** [\d] of a [str] pattern: the Unicode decimal digits (general category
    Nd), as the inclusive code-point ranges of the Unicode 14.0 database of
    Python 3.11. *)
Definition nd_ranges : list (Z * Z) :=
  [(48, 57); (1632, 1641); (1776, 1785); (1984, 1993); (2406, 2415);
   (2534, 2543); (2662, 2671); (2790, 2799); (2918, 2927); (3046, 3055);
   (3174, 3183); (3302, 3311); (3430, 3439); (3558, 3567); (3664, 3673);
   (3792, 3801); (3872, 3881); (4160, 4169); (4240, 4249); (6112, 6121);
   (6160, 6169); (6470, 6479); (6608, 6617); (6784, 6793); (6800, 6809);
   (6992, 7001); (7088, 7097); (7232, 7241); (7248, 7257); (42528, 42537);
   (43216, 43225); (43264, 43273); (43472, 43481); (43504, 43513);
   (43600, 43609); (44016, 44025); (65296, 65305); (66720, 66729);
   (68912, 68921); (69734, 69743); (69872, 69881); (69942, 69951);
   (70096, 70105); (70384, 70393); (70736, 70745); (70864, 70873);
   (71248, 71257); (71360, 71369); (71472, 71481); (71904, 71913);
   (72016, 72025); (72784, 72793); (73040, 73049); (73120, 73129);
   (92768, 92777); (92864, 92873); (93008, 93017); (120782, 120831);
   (123200, 123209); (123632, 123641); (125264, 125273); (130032, 130041)].

Definition is_re_digit (c : Z) : bool :=
  existsb (fun '(lo, hi) => (lo <=? c) && (c <=? hi)) nd_ranges.

(** Matcher of one alternative [open(\d{1,3})close]; returns the digit
    group.  The greedy [{1,3}] takes at most three digits; if the run is
    longer, the character after three digits is a digit, and so is the
    character after any shorter prefix, so the close bracket cannot
    follow and the alternative fails. *)
Definition match_bracket_num (op cl : Z) (s : text) : option (nat * text) :=
  match s with
  | c0 :: rest =>
      if c0 =? op then
        let k := span is_re_digit rest in
        if (1 <=? k)%nat && (k <=? 3)%nat then
          match nth_error rest k with
          | Some c1 => if c1 =? cl then Some (S (S k), firstn k rest) else None
          | None => None
          end
        else None
      else None
  | [] => None
  end.

(** Matcher of [\((\d{1,3})\)|（(\d{1,3})）|\[(\d{1,3})\]]: the
    alternatives tried in order; [num = m.group(1) or m.group(2) or
    m.group(3)] is the group of the alternative that matched (never empty). *)
Definition match_footnote (s : text) : option (nat * (nat * text)) :=
  match match_bracket_num 40 41 s with
  | Some r => match_with_len (fun _ => Some r) s
  | None =>
      match match_bracket_num 65288 65289 s with
      | Some r => match_with_len (fun _ => Some r) s
      | None => match_with_len (match_bracket_num 91 93) s
      end
  end.

(** [supmap]: ⁰ U+2070, ¹ U+00B9, ² U+00B2, ³ U+00B3, ⁴ to ⁹ U+2074 to
    U+2079. *)
Definition supmap (c : Z) : option Z :=
  if c =? 8304 then Some 0
  else if c =? 185 then Some 1
  else if c =? 178 then Some 2
  else if c =? 179 then Some 3
  else if (8308 <=? c) && (c <=? 8313) then Some (c - 8304)
  else None.

Definition in_supmap (c : Z) : bool :=
  match supmap c with Some _ => true | None => false end.

(** [val = val*10 + supmap[text[j]]] over the run. *)
Definition sup_value (run : text) : Z :=
  fold_left (fun v c => match supmap c with Some d => v * 10 + d | None => v end) run 0.

(** [str(val)] for [val >= 0]: the decimal digits as ASCII code points. *)
Fixpoint uint_codes (d : Decimal.uint) : text :=
  match d with
  | Decimal.Nil => []
  | Decimal.D0 d' => 48 :: uint_codes d'
  | Decimal.D1 d' => 49 :: uint_codes d'
  | Decimal.D2 d' => 50 :: uint_codes d'
  | Decimal.D3 d' => 51 :: uint_codes d'
  | Decimal.D4 d' => 52 :: uint_codes d'
  | Decimal.D5 d' => 53 :: uint_codes d'
  | Decimal.D6 d' => 54 :: uint_codes d'
  | Decimal.D7 d' => 55 :: uint_codes d'
  | Decimal.D8 d' => 56 :: uint_codes d'
  | Decimal.D9 d' => 57 :: uint_codes d'
  end.

Definition py_str_nat (v : Z) : text := uint_codes (N.to_uint (Z.to_N v)).

(** One iteration of the superscript [while] loop at position [i]: if
    [text[i] in supmap], the inner loop advances [j] over the maximal run
    of superscript digits, and the outer loop resumes at [i = j]; otherwise
    [i += 1].  This is the resumption rule of [finditer], whose matcher is
    this one; the data is [(j - i, key)]. *)
Definition match_superscript (s : text) : option (nat * (nat * text)) :=
  match span in_supmap s with
  | O => None
  | S _ as k => Some (k, (k, py_str_nat (sup_value (firstn k s))))
  end.

(** The dict [found] (key to first position) as an association list. *)
Definition found_t : Type := list (text * Z).

Fixpoint text_eqb (a b : text) : bool :=
  match a, b with
  | [], [] => true
  | x :: a', y :: b' => (x =? y) && text_eqb a' b'
  | _, _ => false
  end.

Definition found_mem (k : text) (found : found_t) : bool :=
  existsb (fun '(k', _) => text_eqb k k') found.

(** The body shared by both passes: [if key in found:
    duplicates.append((start, length, key)) else: found[key] = start]. *)
Fixpoint record_all (toks : list finding) (found : found_t) (dups : list finding)
  : found_t * list finding :=
  match toks with
  | [] => (found, dups)
  | (i, n, key) :: toks' =>
      if found_mem key found then record_all toks' found (dups ++ [(i, n, key)])
      else record_all toks' (found ++ [(key, i)]) dups
  end.

Definition bracket_tokens (t : text) : list finding :=
  map to_finding (finditer match_footnote t).

Definition superscript_tokens (t : text) : list finding :=
  map to_finding (finditer match_superscript t).

Definition check_duplicate_footnotes (t : text) : list finding :=
  let '(found, duplicates) := record_all (bracket_tokens t) [] [] in
  let '(_, duplicates) := record_all (superscript_tokens t) found duplicates in
  duplicates.

(** ** check_terminology_inconsistency *)

(** [str.isspace], the characters [str.strip()] removes. *)
Definition py_whitespace : list Z :=
  [9; 10; 11; 12; 13; 28; 29; 30; 31; 32; 133; 160; 5760;
   8192; 8193; 8194; 8195; 8196; 8197; 8198; 8199; 8200; 8201; 8202;
   8232; 8233; 8239; 8287; 12288].

Definition is_py_space (c : Z) : bool := in_set py_whitespace c.

Fixpoint lstrip (s : text) : text :=
  match s with
  | [] => []
  | c :: s' => if is_py_space c then lstrip s' else s
  end.

(** [s.strip()] *)
Definition strip (s : text) : text := rev (lstrip (rev (lstrip s))).

(** [s.split(sep)] for a one-character separator. *)
Fixpoint split_on (sep : Z) (s : text) : list text :=
  match s with
  | [] => [[]]
  | c :: s' =>
      if c =? sep then [] :: split_on sep s'
      else match split_on sep s' with
           | piece :: rest => (c :: piece) :: rest
           | [] => [[c]]
           end
  end.

Fixpoint is_prefix (p s : text) : bool :=
  match p, s with
  | [], _ => true
  | x :: p', y :: s' => (x =? y) && is_prefix p' s'
  | _ :: _, [] => false
  end.

Definition match_literal (term : text) (s : text) : option (nat * unit) :=
  if is_prefix term s then Some (List.length term, tt) else None.

(** [target.count(term)] for a non-empty [term]: the number of
    non-overlapping occurrences found left to right. *)
Definition py_count (target term : text) : Z :=
  Z.of_nat (List.length (finditer (match_literal term) target)).

(** [used[term] = v] on an insertion-ordered dict. *)
Fixpoint dict_set (k : text) (v : Z) (d : list (text * Z)) : list (text * Z) :=
  match d with
  | [] => [(k, v)]
  | (k', v') :: d' => if text_eqb k k' then (k', v) :: d' else (k', v') :: dict_set k v d'
  end.

(** A row of the normalised glossary frame, after [fillna("")]; the
    [en] column is not read by the check. *)
Record glossary_row := { zh_pref : text; zh_variants : text }.

(** An element of [inconsistencies]: ["preferred"] and the dict
    [used_terms] that the ["found"] column renders as [k (v)] items joined
    by a comma and a space. *)
Record inconsistency := { preferred : text; found : list (text * Z) }.

Definition row_variants (row : glossary_row) : list text :=
  map strip (filter (fun v => negb (text_eqb (strip v) [])) (split_on 124 (strip (zh_variants row)))).

(** The body of [for term in [pref] + variants: if term: used[term] = ...],
    with [F] the count of [term] in the target. *)
Definition add_term (F : text -> Z) (used : list (text * Z)) (term : text) : list (text * Z) :=
  match term with
  | [] => used
  | _ => dict_set term (F term) used
  end.

Definition check_row (target : text) (row : glossary_row) : list inconsistency :=
  let pref := strip (zh_pref row) in
  let variants := row_variants row in
  match pref, variants with
  | [], [] => []
  | _, _ =>
      let used := fold_left (add_term (py_count target)) (pref :: variants) [] in
      let used_terms := filter (fun '(_, v) => 0 <? v) used in
      if (1 <? List.length used_terms)%nat then [{| preferred := pref; found := used_terms |}] else []
  end.

(** A DataFrame is [empty] when it has no rows. *)
Definition check_terminology_inconsistency (target : text) (glossary_df : list glossary_row)
  : list inconsistency :=
  match glossary_df with
  | [] => []
  | _ => flat_map (check_row target) glossary_df
  end.

(** ** context_snippet *)

(** A slice bound of [text[a:b]]: negative bounds count from the end,
    and bounds are then clamped into [[0, len(text)]]. *)
Definition slice_bound (len x : Z) : Z :=
  if x <? 0 then Z.max 0 (x + len) else Z.min x len.

(** [text[a:b]] *)
Definition py_slice (t : text) (a b : Z) : text :=
  let len := Z.of_nat (List.length t) in
  let a' := slice_bound len a in
  let b' := slice_bound len b in
  firstn (Z.to_nat (b' - a')) (skipn (Z.to_nat a') t).

(** [.replace("\n", " ")] *)
Definition replace_newline (t : text) : text := map (fun c => if c =? 10 then 32 else c) t.

Definition context_snippet_pad (t : text) (start length pad : Z) : text :=
  let s := Z.max 0 (start - pad) in
  let e := Z.min (Z.of_nat (List.length t)) (start + length + pad) in
  replace_newline (py_slice t s e).

(** The default [pad: int = 32], as [context_df] calls it. *)
Definition context_snippet (t : text) (start length : Z) : text :=
  context_snippet_pad t start length 32.

(** ** Reading of the duplicate rule of the specification

    The tokens of a list that have an earlier token with the same key: the
    second and later occurrences of each key, in list order. *)
Definition fn_key (f : finding) : text := snd f.

Fixpoint with_prefixes {A} (pre : list A) (l : list A) : list (list A * A) :=
  match l with
  | [] => []
  | x :: l' => (pre, x) :: with_prefixes (pre ++ [x]) l'
  end.

Definition seen_before (pre : list finding) (k : text) : bool :=
  existsb (fun y => text_eqb (fn_key y) k) pre.

Definition repeated_occurrences (toks : list finding) : list finding :=
  map snd (filter (fun px => seen_before (fst px) (fn_key (snd px))) (with_prefixes [] toks)).

(** ** Auxiliary predicates of the proofs *)

Definition starts (l : list finding) : list Z := map (fun f => fst (fst f)) l.

(** An opener [ch] sits at offset [pos] of [t]. *)
Definition opener_at (t : text) (ch pos : Z) : Prop :=
  0 <= pos /\ nth_error t (Z.to_nat pos) = Some ch /\ in_set opens ch = true.

(** Shape of a finding of [check_extra_spaces]: an ideograph, a non-empty
    run of the gap class, an ideograph. *)
Definition gap_match (gap : Z -> bool) (f : finding) : Prop :=
  let '(_, _, g) := f in
  exists c0 mid c1, g = c0 :: mid ++ [c1] /\ mid <> [] /\
    Forall (fun c => gap c = true) mid /\ is_cjk c0 = true /\ is_cjk c1 = true.

(** Every value of the dict is [F] of its key. *)
Definition dict_values_ok (F : text -> Z) (d : list (text * Z)) : Prop :=
  forall k v, In (k, v) d -> v = F k.

(** ** Further code of app.py *)

(** The code points of an ASCII string literal. *)
Definition string_codes (s : string) : text :=
  map (fun a => Z.of_nat (Ascii.nat_of_ascii a)) (list_ascii_of_string s).

(** [text[p:p+n]] for [0 <= p] and [0 <= n]. *)
Definition slice (t : text) (p n : Z) : text := firstn (Z.to_nat n) (skipn (Z.to_nat p) t).

(** A maximal run of superscript digits at [p] of length [n]: every
    character of [text[p:p+n]] is in [supmap], and neither the character
    before nor the character after is. *)
Definition sup_run (t : text) (p n : Z) : Prop :=
  0 <= p /\ 1 <= n /\ p + n <= Z.of_nat (List.length t) /\
  Forall (fun c => in_supmap c = true) (slice t p n) /\
  (forall c, nth_error t (Z.to_nat (p + n)) = Some c -> in_supmap c = false) /\
  (p = 0 \/ forall c, nth_error t (Z.to_nat (p - 1)) = Some c -> in_supmap c = false).

(** [sep.join(pieces)] for a one-character separator. *)
Fixpoint py_join (sep : Z) (pieces : list text) : text :=
  match pieces with
  | [] => []
  | [p] => p
  | p :: ps => p ++ sep :: py_join sep ps
  end.

(** The number of issues of a list carrying a given note. *)
Definition count_note (n : string) (l : list typo) : nat :=
  List.length (filter (fun x => String.eqb (snd x) n) l).

(** *** _auto_map_columns

    [str.lower] is a parameter: the mapping only depends on it through
    the dict [lc = {c.lower(): c for c in df.columns}]. *)
Section AutoMap.
Variable lower : text -> text.

(** [d[k] = v] on an insertion-ordered dict with text values. *)
Fixpoint tdict_set (k v : text) (d : list (text * text)) : list (text * text) :=
  match d with
  | [] => [(k, v)]
  | (k', v') :: d' => if text_eqb k k' then (k', v) :: d' else (k', v') :: tdict_set k v d'
  end.

(** [d.get(k)] *)
Fixpoint tdict_get (k : text) (d : list (text * text)) : option text :=
  match d with
  | [] => None
  | (k', v) :: d' => if text_eqb k k' then Some v else tdict_get k d'
  end.

(** [lc = {c.lower(): c for c in df.columns}] *)
Definition lower_columns (cols : list text) : list (text * text) :=
  fold_left (fun d c => tdict_set (lower c) c d) cols [].

(** [pick(keys)]: the column of the first key present in [lc]. *)
Fixpoint pick (lc : list (text * text)) (keys : list text) : option text :=
  match keys with
  | [] => None
  | k :: keys' =>
      match tdict_get k lc with
      | Some c => Some c
      | None => pick lc keys'
      end
  end.

Definition en_keys : list text :=
  map string_codes ["en"%string; "english"%string; "source term"%string; "source"%string; "term_en"%string].
Definition zh_pref_keys : list text :=
  map string_codes ["zh_pref"%string; "preferred"%string; "tc"%string; "tw"%string; "traditional chinese"%string; "chinese"%string;
                    "term_zh"%string; "zh-tw"%string; "zh_trad"%string].
Definition zh_var_keys : list text :=
  map string_codes ["zh_variants"%string; "variants"%string; "alt"%string; "alternatives"%string; "synonyms"%string].

Definition auto_map_columns (cols : list text) : option text * option text * option text :=
  let lc := lower_columns cols in
  (pick lc en_keys, pick lc zh_pref_keys, pick lc zh_var_keys).
End AutoMap.

(** *** context_df *)

(** The tuples [context_df] receives: [(pos, length, token)] or
    [(pos, length, token, note)]. *)
Inductive item :=
| Item3 (pos length : Z) (token : text)
| Item4 (pos length : Z) (token : text) (note : string).

(** A row [{"issue", "detail", "start", "end", "context"}]. *)
Record report_row := {
  r_issue : string; r_detail : text; r_start : Z; r_end : Z; r_context : text }.

Definition context_row (label : string) (t : text) (it : item) : report_row :=
  let '(pos, length, token, note) :=
    match it with
    | Item3 pos length token => (pos, length, token, ""%string)
    | Item4 pos length token note => (pos, length, token, note)
    end in
  {| r_issue := label;
     r_detail := (match note with EmptyString => token | _ => string_codes note end);
     r_start := pos;
     r_end := pos + length;
     r_context := context_snippet t pos length |}.

Definition context_df (label : string) (t : text) (items : list item) : list report_row :=
  map (context_row label t) items.

Definition finding_item (f : finding) : item := let '(p, n, g) := f in Item3 p n g.
Definition typo_item (x : typo) : item := let '(p, n, g, note) := x in Item4 p n g note.

(** The three span-based tables of the main flow. *)
Definition df_spaces (t : text) : list report_row :=
  context_df "Extra space" t (map finding_item (check_extra_spaces t)).
Definition df_typos (t : text) : list report_row :=
  context_df "Typographical" t (map typo_item (check_typos t)).
Definition df_foot (t : text) : list report_row :=
  context_df "Duplicated footnote" t (map finding_item (check_duplicate_footnotes t)).

(** The bracket pairs of the footnote pattern: ( ), （ ） and [ ]. *)
Definition footnote_brackets : list (Z * Z) := [(40, 41); (65288, 65289); (91, 93)].

(** The evaluation of a row that has a non-blank preferred term or a
    variant. *)
Definition row_result (target : text) (row : glossary_row) : list inconsistency :=
  let used := fold_left (add_term (py_count target)) (strip (zh_pref row) :: row_variants row) [] in
  let used_terms := filter (fun '(_, v) => 0 <? v) used in
  if (1 <? List.length used_terms)%nat
  then [{| preferred := strip (zh_pref row); found := used_terms |}] else [].

(** Two different notes are different strings. *)
Ltac notes_neq :=
  unfold note_ascii, note_repeated, note_unexpected, note_unclosed, note_zw; discriminate.

Example ces1 : check_extra_spaces [20013; 32; 25991] = [(0, 3, [20013; 32; 25991])].
Proof. reflexivity. Qed.
Example ces2 : check_extra_spaces [20013; 12288; 25991] = [(0, 3, [20013; 12288; 25991])].
Proof. reflexivity. Qed.
Example ces3 : check_extra_spaces [20013; 32; 25991; 32; 23383] = [(0, 3, [20013; 32; 25991])].
Proof. reflexivity. Qed.
Example ces4 : check_extra_spaces [20013; 12288; 25991; 32; 23383] =
  [(2, 3, [25991; 32; 23383]); (0, 3, [20013; 12288; 25991])].
Proof. reflexivity. Qed.

Example ct1 : check_typos [65288; 28204; 35430] = [(0, 1, [65288], note_unclosed)].
Proof. reflexivity. Qed.
Example ct2 : check_typos [28204; 35430; 65289] = [(2, 1, [65289], note_unexpected)].
Proof. reflexivity. Qed.
Example ct3 : check_typos [65288; 28204; 35430; 65289] = [].
Proof. reflexivity. Qed.
Example ct4 : check_typos [20320; 44; 22909; 44; 21966] = [(1, 1, [44], note_ascii)].
Proof. reflexivity. Qed.
Example ct5 : check_typos [65288; 65341] = [(0, 1, [65288], note_unclosed)].
Proof. reflexivity. Qed.
Example ct6 : check_typos [65288; 12305] = [(1, 1, [12305], note_unexpected); (0, 1, [65288], note_unclosed)].
Proof. reflexivity. Qed.
Example ct7 : check_typos [12290; 12290; 12290; 97; 8203] = [(0, 3, [12290; 12290; 12290], note_repeated); (4, 1, [8203], note_zw)].
Proof. reflexivity. Qed.

Example cdf1 : check_duplicate_footnotes
  [102;111;111;40;49;41;32;98;97;114;40;50;41;32;98;97;122;40;49;41] = [(17, 3, [49])].
Proof. reflexivity. Qed.
Example cdf2 : check_duplicate_footnotes [97;185;32;98;178;32;99;185] = [(7, 1, [49])].
Proof. reflexivity. Qed.
Example cdf3 : superscript_tokens [120;8304;185] = [(1, 2, [49])].
Proof. reflexivity. Qed.
Example cdf4 : check_duplicate_footnotes [40;49;50;41;32;185;178] = [(5, 2, [49;50])].
Proof. reflexivity. Qed.
Example cdf5 : bracket_tokens [40;49;50;51;52;41;91;1633;93] = [(6, 3, [1633])].
Proof. reflexivity. Qed.

Example cti1 : check_terminology_inconsistency [22996;35351;21463;35351;22996;35351]
  [{| zh_pref := [22996;35351]; zh_variants := [21463;35351] |}] =
  [{| preferred := [22996;35351]; found := [([22996;35351], 2); ([21463;35351], 1)] |}].
Proof. reflexivity. Qed.
Example cti2 : check_terminology_inconsistency [22996;35351]
  [{| zh_pref := [22996;35351]; zh_variants := [21463;35351] |}] = [].
Proof. reflexivity. Qed.
Example cti3 : check_terminology_inconsistency [65;66]
  [{| zh_pref := [32]; zh_variants := [32;65;124;124;66;32] |}] =
  [{| preferred := []; found := [([65], 1); ([66], 1)] |}].
Proof. reflexivity. Qed.
Example pc1 : py_count [97;97;97] [97;97] = 1.
Proof. reflexivity. Qed.
Example cs1 : context_snippet [97;13;10;98] 0 1 = [97;13;32;98].
Proof. reflexivity. Qed.

(** * Properties *)

(** ** The scanner *)

Section FinditerFacts.
Context {A : Type}.
Variable m : text -> option (nat * A).

Lemma finditer_from_ge : forall s skip i,
  Forall (fun pa => i <= fst pa) (finditer_from m skip i s).
Proof.
  induction s as [|c s IH]; intros skip i; simpl; [constructor|].
  destruct skip as [|k].
  - destruct (m (c :: s)) as [[n a]|].
    + constructor; [simpl; lia|].
      eapply Forall_impl; [|apply IH]. intros pa H; simpl in H; lia.
    + eapply Forall_impl; [|apply IH]. intros pa H; simpl in H; lia.
  - eapply Forall_impl; [|apply IH]. intros pa H; simpl in H; lia.
Qed.

Lemma finditer_from_sorted : forall s skip i,
  StronglySorted (fun p q => fst p < fst q) (finditer_from m skip i s).
Proof.
  induction s as [|c s IH]; intros skip i; simpl; [constructor|].
  destruct skip as [|k]; [|apply IH].
  destruct (m (c :: s)) as [[n a]|]; [|apply IH].
  constructor; [apply IH|].
  eapply Forall_impl; [|apply finditer_from_ge]. intros pa H; simpl in *; lia.
Qed.

(** Every result is a match of [m] at its own position. *)
Lemma finditer_from_sound : forall s skip i p a,
  In (p, a) (finditer_from m skip i s) ->
  i <= p /\ exists n, m (skipn (Z.to_nat (p - i)) s) = Some (n, a).
Proof.
  induction s as [|c s IH]; intros skip i p a Hin; simpl in Hin; [contradiction|].
  assert (Hstep : forall k, In (p, a) (finditer_from m k (i + 1) s) ->
            i <= p /\ exists n, m (skipn (Z.to_nat (p - i)) (c :: s)) = Some (n, a)).
  { intros k Hk. destruct (IH _ _ _ _ Hk) as [Hle [n Hn]]. split; [lia|].
    exists n. replace (Z.to_nat (p - i)) with (S (Z.to_nat (p - (i + 1)))) by lia.
    exact Hn. }
  destruct skip as [|k]; [|eapply Hstep; eauto].
  destruct (m (c :: s)) as [[n a']|] eqn:Hm; [|eapply Hstep; eauto].
  destruct Hin as [Heq|Hin]; [|eapply Hstep; eauto].
  inversion Heq; subst. split; [lia|]. exists n. rewrite Z.sub_diag. exact Hm.
Qed.

(** A matcher that fails at every suffix finds nothing. *)
Lemma finditer_from_none : forall s skip i,
  (forall k, m (skipn k s) = None) -> finditer_from m skip i s = [].
Proof.
  induction s as [|c s IH]; intros skip i Hnone; simpl; [reflexivity|].
  assert (Ht : forall k, m (skipn k s) = None) by (intro k; exact (Hnone (S k))).
  destruct skip as [|k]; [|apply IH, Ht].
  pose proof (Hnone O) as H0; simpl in H0. rewrite H0. apply IH, Ht.
Qed.
End FinditerFacts.

Lemma StronglySorted_map {A B} (R : B -> B -> Prop) (f : A -> B) (l : list A) :
  StronglySorted (fun x y => R (f x) (f y)) l -> StronglySorted R (map f l).
Proof.
  induction 1 as [|a l _ IH HF]; simpl; constructor; [exact IH|].
  apply Forall_map. exact HF.
Qed.

Lemma StronglySorted_weaken {A} (R R' : A -> A -> Prop) (l : list A) :
  (forall x y, R x y -> R' x y) -> StronglySorted R l -> StronglySorted R' l.
Proof.
  intros Himp; induction 1 as [|a l _ IH HF]; constructor; [exact IH|].
  eapply Forall_impl; [|exact HF]. intros; apply Himp; assumption.
Qed.

(** ** Greedy runs *)

Lemma span_prefix (p : Z -> bool) (l : text) :
  Forall (fun c => p c = true) (firstn (span p l) l).
Proof.
  induction l as [|c l IH]; simpl; [constructor|].
  destruct (p c) eqn:Hc; simpl; constructor; auto.
Qed.

Lemma span_le (p : Z -> bool) (l : text) : (span p l <= List.length l)%nat.
Proof. induction l as [|c l IH]; simpl; [lia|destruct (p c); simpl; lia]. Qed.

Lemma firstn_S_nth_error {A} (l : list A) k x :
  nth_error l k = Some x -> firstn (S k) l = firstn k l ++ [x].
Proof.
  revert k; induction l as [|y l IH]; intros k H; destruct k; simpl in *; try discriminate.
  - inversion H; reflexivity.
  - f_equal. apply IH, H.
Qed.

Lemma cjk_not_gap c :
  is_cjk c = true -> is_space_tab c = false /\ is_fullwidth_space c = false.
Proof.
  unfold is_cjk, is_space_tab, is_fullwidth_space. intro H.
  apply andb_true_iff in H as [H1 H2]. apply Z.leb_le in H1.
  split; [apply orb_false_iff; split|]; apply Z.eqb_neq; lia.
Qed.

(** What a match of [match_cjk_gap] consists of. *)
Lemma match_cjk_gap_sound gap s n g :
  match_cjk_gap gap s = Some (n, g) ->
  exists c0 mid c1, g = c0 :: mid ++ [c1] /\ mid <> [] /\
    Forall (fun c => gap c = true) mid /\ is_cjk c0 = true /\ is_cjk c1 = true.
Proof.
  destruct s as [|c0 rest]; simpl; [discriminate|].
  destruct (is_cjk c0) eqn:H0; [|discriminate].
  pose proof (span_prefix gap rest) as Hpre.
  destruct (span gap rest) as [|k] eqn:Hk; [discriminate|].
  destruct (nth_error rest (S k)) as [c1|] eqn:Hn; [|discriminate].
  destruct (is_cjk c1) eqn:H1; [|discriminate].
  intro Heq; inversion Heq; subst.
  exists c0, (firstn (S k) rest), c1.
  assert (Hlen : List.length (firstn (S k) rest) = S k).
  { apply firstn_length_le.
    assert (S k < List.length rest)%nat by (apply nth_error_Some; congruence). lia. }
  split; [|split; [|repeat split; auto]].
  - simpl firstn at 1. rewrite <- (firstn_S_nth_error rest (S k) c1 Hn). reflexivity.
  - intro E; rewrite E in Hlen; discriminate.
Qed.


Lemma gap_findings_sorted gap t :
  StronglySorted (fun a b : finding => fst (fst a) < fst (fst b))
    (map to_finding (finditer (match_with_len (match_cjk_gap gap)) t)).
Proof.
  apply StronglySorted_map.
  eapply StronglySorted_weaken; [|apply finditer_from_sorted].
  intros [p [n g]] [q [n' g']] H; simpl in *. exact H.
Qed.

Lemma gap_findings_shape gap t :
  Forall (gap_match gap) (map to_finding (finditer (match_with_len (match_cjk_gap gap)) t)).
Proof.
  apply Forall_map, Forall_forall. intros [p [n g]] Hin.
  destruct (finditer_from_sound _ _ _ _ _ _ Hin) as [_ [n' Hm]].
  unfold match_with_len in Hm.
  destruct (match_cjk_gap gap _) as [[n0 g0]|] eqn:Hg; inversion Hm; subst.
  exact (match_cjk_gap_sound _ _ _ _ Hg).
Qed.

(** ** Claims on check_extra_spaces *)


(** C4 (counterexample): the result is not ordered by start offset when a
    full-width-space match precedes an ordinary-space match: for
    中　文 字 the ordinary match at offset 2 is listed before the
    full-width match at offset 0. *)
Lemma C4_extra_spaces_not_sorted :
  check_extra_spaces [20013; 12288; 25991; 32; 23383] =
    [(2, 3, [25991; 32; 23383]); (0, 3, [20013; 12288; 25991])] /\
  ~ StronglySorted Z.le (starts (check_extra_spaces [20013; 12288; 25991; 32; 23383])).
Proof.
  split; [reflexivity|].
  vm_compute. intro H. apply StronglySorted_inv in H as [_ HF].
  apply Forall_inv in HF. exact (HF eq_refl).
Qed.

(** C4 (amended): [check_extra_spaces] returns all ordinary-space
    matches, by strictly increasing start offset, followed by all
    full-width-space matches, by strictly increasing start offset; each
    match is an ideograph, a non-empty run of spaces/tabs (resp. U+3000)
    and an ideograph. *)
Theorem C4_extra_spaces_two_sorted_groups (t : text) :
  exists l1 l2, check_extra_spaces t = l1 ++ l2 /\
    StronglySorted (fun a b : finding => fst (fst a) < fst (fst b)) l1 /\
    StronglySorted (fun a b : finding => fst (fst a) < fst (fst b)) l2 /\
    Forall (gap_match is_space_tab) l1 /\
    Forall (gap_match is_fullwidth_space) l2.
Proof.
  eexists _, _. split; [reflexivity|].
  repeat split; (apply gap_findings_sorted || apply gap_findings_shape).
Qed.

Lemma match_cjk_gap_non_cjk gap s :
  Forall (fun c => is_cjk c = false) s -> match_cjk_gap gap s = None.
Proof. intros H; destruct H as [|c s Hc _]; simpl; [reflexivity|]. rewrite Hc; reflexivity. Qed.

Lemma Forall_skipn_Z {A} (P : A -> Prop) k (l : list A) :
  Forall P l -> Forall P (skipn k l).
Proof.
  revert l; induction k as [|k IH]; intros l H; [exact H|].
  destruct H as [|x l _ Hl]; simpl; [constructor|]. apply IH, Hl.
Qed.

Lemma match_with_len_none mt s : mt s = None -> match_with_len mt s = None.
Proof. unfold match_with_len; intros ->; reflexivity. Qed.

Lemma extra_spaces_no_cjk (t : text) :
  Forall (fun c => is_cjk c = false) t -> check_extra_spaces t = [].
Proof.
  intro H. unfold check_extra_spaces, finditer.
  rewrite !finditer_from_none; [reflexivity| |];
    intro k; apply match_with_len_none, match_cjk_gap_non_cjk, Forall_skipn_Z, H.
Qed.

(** C7: on a text without CJK ideographs, [check_extra_spaces] returns
    the empty list, and an empty glossary frame (what [load_glossary]
    returns when no glossary is uploaded) gives no terminology findings. *)
Theorem C7_detectors_total_empty (t : text)
  (Hno_cjk : Forall (fun c => is_cjk c = false) t) :
  check_extra_spaces t = [] /\
  forall target, check_terminology_inconsistency target [] = [].
Proof. split; [apply extra_spaces_no_cjk, Hno_cjk | reflexivity]. Qed.

Lemma C7_detectors_total_empty_witness :
  Forall (fun c => is_cjk c = false) [97; 32; 98; 12288; 99] /\
  check_extra_spaces [97; 32; 98; 12288; 99] = [] /\
  (forall target, check_terminology_inconsistency target [] = []).
Proof.
  assert (H : Forall (fun c => is_cjk c = false) [97; 32; 98; 12288; 99])
    by (repeat constructor).
  split; [exact H|]. apply (C7_detectors_total_empty _ H).
Defined.

(** C9: within one whitespace class the scan is non-overlapping and a
    match consumes its right-hand ideograph: three ideographs separated
    by single spaces give one finding, for the first triple. *)
Theorem C9_extra_spaces_abutting (a b c : Z)
  (Ha : is_cjk a = true) (Hb : is_cjk b = true) (Hc : is_cjk c = true) :
  check_extra_spaces [a; 32; b; 32; c] = [(0, 3, [a; 32; b])].
Proof.
  destruct (cjk_not_gap b Hb) as [Hbs Hbf].
  destruct (cjk_not_gap c Hc) as [Hcs Hcf].
  unfold check_extra_spaces, finditer, match_with_len, match_cjk_gap. simpl.
  repeat progress (rewrite ?Ha, ?Hb, ?Hc, ?Hbs, ?Hcs, ?Hbf, ?Hcf; simpl).
  reflexivity.
Qed.

Lemma C9_extra_spaces_abutting_witness :
  check_extra_spaces [20013; 32; 25991; 32; 23383] = [(0, 3, [20013; 32; 25991])].
Proof. apply C9_extra_spaces_abutting; reflexivity. Defined.

(** ** Claims on check_typos *)

Lemma in_set_In l c : in_set l c = true -> In c l.
Proof.
  unfold in_set. intro H. apply existsb_exists in H as [x [Hx Heq]].
  apply Z.eqb_eq in Heq. subst. exact Hx.
Qed.

Lemma skipn_cons_nth_error {A} n (l : list A) x r :
  skipn n l = x :: r -> nth_error l n = Some x /\ skipn (S n) l = r.
Proof.
  revert l; induction n as [|n IH]; intros l H; destruct l as [|y l]; simpl in *;
    try discriminate.
  - inversion H; subst; split; reflexivity.
  - apply IH, H.
Qed.


Lemma bracket_loop_stack (t : text) : forall s i stk iss,
  0 <= i -> skipn (Z.to_nat i) t = s ->
  (forall ch pos, In (ch, pos) stk -> opener_at t ch pos) ->
  forall ch pos, In (ch, pos) (fst (bracket_loop i s stk iss)) -> opener_at t ch pos.
Proof.
  induction s as [|c s IH]; intros i stk iss Hi Hs Hstk; cbn [bracket_loop]; [exact Hstk|].
  apply skipn_cons_nth_error in Hs as [Hnth Hs].
  assert (Hs' : skipn (Z.to_nat (i + 1)) t = s)
    by (replace (Z.to_nat (i + 1)) with (S (Z.to_nat i)) by lia; exact Hs).
  assert (Hi' : 0 <= i + 1) by lia.
  destruct (in_set opens c) eqn:Ho.
  - apply IH; auto. intros ch pos [Heq|Hin]; [|auto].
    inversion Heq; subst. repeat split; auto.
  - destruct (in_set closes c); [|apply IH; auto].
    destruct stk as [|[top p] stk']; [apply IH; auto|].
    destruct (pairs_get pairs top) as [cl|]; [destruct (cl =? c)|]; apply IH; auto.
    intros ch pos Hin; apply Hstk; right; exact Hin.
Qed.

Lemma bracket_loop_issues : forall s i stk iss x,
  In x (snd (bracket_loop i s stk iss)) -> In x iss \/ snd x = note_unexpected.
Proof.
  induction s as [|c s IH]; intros i stk iss x Hin; cbn [bracket_loop snd] in Hin;
    [left; exact Hin|].
  assert (Hadd : forall iss', In x (snd (bracket_loop (i + 1) s stk (iss ++ [iss'])))
                   -> snd iss' = note_unexpected -> In x iss \/ snd x = note_unexpected).
  { intros iss' H Hn. destruct (IH _ _ _ _ H) as [H'|H']; [|right; exact H'].
    apply in_app_or in H' as [H'|[<-|[]]]; [left; exact H'|right; exact Hn]. }
  destruct (in_set opens c); [eapply IH; eauto|].
  destruct (in_set closes c); [|eapply IH; eauto].
  destruct stk as [|[top p] stk']; [eapply Hadd; eauto|].
  destruct (pairs_get pairs top) as [cl|]; [destruct (cl =? c)|];
    [eapply IH; eauto|eapply Hadd; eauto|eapply Hadd; eauto].
Qed.

(** C1 (counterexample): for （測試 the unclosed-open issue is at the
    opener's offset 0, not at the end of the text (offset 3). *)
Lemma C1_unclosed_not_at_end :
  check_typos [65288; 28204; 35430] = [(0, 1, [65288], note_unclosed)] /\
  ~ (forall p n tok, In (p, n, tok, note_unclosed) (check_typos [65288; 28204; 35430]) ->
       p = 3).
Proof.
  split; [reflexivity|]. intro H.
  specialize (H 0 1 [65288] (or_introl eq_refl)). discriminate H.
Qed.

(** The final stack does not depend on the issues passed in. *)
Lemma bracket_loop_fst_indep : forall s i stk iss iss',
  fst (bracket_loop i s stk iss) = fst (bracket_loop i s stk iss').
Proof.
  induction s as [|c s IH]; intros i stk iss iss'; cbn [bracket_loop]; [reflexivity|].
  destruct (in_set opens c); [apply IH|].
  destruct (in_set closes c); [|apply IH].
  destruct stk as [|[top p] stk']; [apply IH|].
  destruct (pairs_get pairs top) as [cl|]; [destruct (cl =? c)|]; apply IH.
Qed.

(** The stack keeps its offsets strictly decreasing from the top, all of
    them below the current index. *)
Lemma bracket_loop_stack_sorted : forall s i stk iss,
  Forall (fun x => snd x < i) stk -> StronglySorted (fun a b => snd b < snd a) stk ->
  StronglySorted (fun a b => snd b < snd a) (fst (bracket_loop i s stk iss)).
Proof.
  induction s as [|c s IH]; intros i stk iss Hlt Hs; cbn [bracket_loop]; [exact Hs|].
  assert (Hlt' : Forall (fun x => snd x < i + 1) stk)
    by (apply (Forall_impl (P := fun x : Z * Z => snd x < i)); [intros x Hx; lia|exact Hlt]).
  destruct (in_set opens c).
  - apply IH; constructor; auto. simpl. lia.
  - destruct (in_set closes c); [|apply IH; assumption].
    destruct stk as [|[top p] stk']; [apply IH; assumption|].
    inversion Hlt' as [|? ? _ Hlt'']; subst. inversion Hs as [|? ? Hs' _]; subst.
    destruct (pairs_get pairs top) as [cl|]; [destruct (cl =? c)|]; apply IH; auto.
Qed.

Lemma StronglySorted_app_single {A} (R : A -> A -> Prop) (l : list A) a :
  StronglySorted R l -> Forall (fun x => R x a) l -> StronglySorted R (l ++ [a]).
Proof.
  induction 1 as [|b l _ IH HF]; intro Ha; simpl.
  - constructor; constructor.
  - inversion Ha as [|? ? Hb Ha']; subst. constructor; [apply IH, Ha'|].
    apply Forall_app. split; [exact HF|constructor; [exact Hb|constructor]].
Qed.

Lemma StronglySorted_rev {A} (R : A -> A -> Prop) (l : list A) :
  StronglySorted R l -> StronglySorted (fun a b => R b a) (rev l).
Proof.
  induction 1 as [|a l _ IH HF]; simpl; [constructor|].
  apply StronglySorted_app_single; [exact IH|].
  apply Forall_forall. intros x Hx. apply in_rev in Hx.
  rewrite Forall_forall in HF. apply HF, Hx.
Qed.

Lemma filter_none {A} (f : A -> bool) (l : list A) :
  (forall x, In x l -> f x = false) -> filter f l = [].
Proof.
  induction l as [|x l IH]; intro H; simpl; [reflexivity|].
  rewrite (H x (or_introl eq_refl)). apply IH. intros y Hy. apply H. right. exact Hy.
Qed.

Lemma filter_all {A} (f : A -> bool) (l : list A) :
  (forall x, In x l -> f x = true) -> filter f l = l.
Proof.
  induction l as [|x l IH]; intro H; simpl; [reflexivity|].
  rewrite (H x (or_introl eq_refl)), IH; [reflexivity|].
  intros y Hy. apply H. right. exact Hy.
Qed.

Lemma note_unclosed_other (nt : string) :
  In nt [note_ascii; note_repeated; note_unexpected; note_zw] ->
  String.eqb nt note_unclosed = false.
Proof. intros [<-|[<-|[<-|[<-|[]]]]]; reflexivity. Qed.

(** C1 (amended): the unclosed-open issues of [check_typos] are exactly
    one issue per character left on the stack after the scan, in push
    order (bottom of the stack first), each of length 1 and located at
    that opener's own offset in the text; the offsets strictly increase
    along push order; for （測試 the single such issue is at 0. *)
Theorem C1_unclosed_at_opener (t : text) :
  let stk := rev (fst (bracket_loop 0 t [] [])) in
  filter (fun x : typo => String.eqb (snd x) note_unclosed) (check_typos t) =
    map (fun '(ch, pos) => (pos, 1, [ch], note_unclosed)) stk /\
  (forall ch pos, In (ch, pos) stk -> opener_at t ch pos) /\
  StronglySorted (fun a b => snd a < snd b) stk /\
  check_typos [65288; 28204; 35430] = [(0, 1, [65288], note_unclosed)].
Proof.
  cbv zeta. split; [|split; [|split; [|reflexivity]]].
  - unfold check_typos.
    lazymatch goal with
    | |- context [bracket_loop 0 t [] ?i0] => set (iss0 := i0)
    end.
    pose proof (bracket_loop_fst_indep t 0 [] [] iss0) as Hind.
    pose proof (bracket_loop_issues t 0 [] iss0) as Hiss.
    destruct (bracket_loop 0 t [] iss0) as [stk iss] eqn:Hb.
    cbn [fst snd] in Hind, Hiss. rewrite Hind.
    rewrite !filter_app.
    rewrite (filter_none _ iss), (filter_all _ (unclosed_issues stk)),
      (filter_none _ (flat_map _ zero_width)); [rewrite app_nil_r; reflexivity| | |].
    + intros x Hx. apply in_flat_map in Hx as [zw [_ Hz]].
      apply in_map_iff in Hz as [[i u] [<- _]]. apply note_unclosed_other. simpl; tauto.
    + intros x Hx. unfold unclosed_issues in Hx. apply in_map_iff in Hx as [[ch pos] [<- _]].
      apply String.eqb_refl.
    + intros x Hx. destruct (Hiss x Hx) as [H|H];
        [|rewrite H; apply note_unclosed_other; simpl; tauto].
      subst iss0. apply in_app_or in H as [H|H]; apply in_map_iff in H as [y [<- _]].
      * destruct y; apply note_unclosed_other; simpl; tauto.
      * destruct y as [? [? ?]]; apply note_unclosed_other; simpl; tauto.
  - intros ch pos Hin. apply in_rev in Hin.
    exact (bracket_loop_stack t t 0 [] [] (Z.le_refl 0) eq_refl
             (fun _ _ H => match H with end) ch pos Hin).
  - apply (StronglySorted_rev (fun a b : Z * Z => snd b < snd a)).
    apply bracket_loop_stack_sorted; constructor.
Qed.

(** C3: in 你,好,嗎 both commas are ASCII punctuation with an ideograph
    on each side, but [check_typos] flags only the first (offset 1): the
    match of the first triple consumes 好, so the scan for the second
    triple starts at the second comma. *)
Theorem C3_consecutive_punct_missed :
  let t := [20320; 44; 22909; 44; 21966] in
  (nth_error t 3 = Some 44 /\ in_set ascii_punct 44 = true /\
   is_cjk 22909 = true /\ is_cjk 21966 = true) /\
  check_typos t = [(1, 1, [44], note_ascii)] /\
  ~ In (3, 1, [44], note_ascii) (check_typos t).
Proof.
  simpl. split; [repeat split|split; [reflexivity|]].
  vm_compute. intros [H|[]]. discriminate H.
Qed.

(** ** The bracket matcher on a mismatched closer *)

Lemma closes_not_opens c : in_set closes c = true -> in_set opens c = false.
Proof.
  intro H; apply in_set_In in H; simpl in H.
  repeat destruct H as [<-|H]; try reflexivity; contradiction.
Qed.

(** C10 (counterexample): ］ (U+FF3D) is not one of the closers of
    [pairs], so （］ gives a single issue, the unclosed （ at 0. *)
Lemma C10_fullwidth_square_not_closer :
  in_set closes 65341 = false /\
  check_typos [65288; 65341] = [(0, 1, [65288], note_unclosed)].
Proof. split; reflexivity. Qed.

(** C10 (amended): a closer of [pairs] that does not match the top of a
    non-empty stack is reported as unexpected and the stack is kept; so
    a two-character text made of an opener and a non-matching closer of
    [pairs] (for instance （】 or (]) gives one unexpected-close issue at
    offset 1 and one unclosed-open issue for the opener at offset 0. *)
Theorem C10_mismatch_keeps_stack :
  (forall i ch s top pos stk iss,
     in_set closes ch = true -> pairs_get pairs top <> Some ch ->
     bracket_loop i (ch :: s) ((top, pos) :: stk) iss =
     bracket_loop (i + 1) s ((top, pos) :: stk) (iss ++ [(i, 1, [ch], note_unexpected)])) /\
  (forall o c, in_set opens o = true -> in_set closes c = true ->
     pairs_get pairs o <> Some c ->
     check_typos [o; c] = [(1, 1, [c], note_unexpected); (0, 1, [o], note_unclosed)]).
Proof.
  split.
  - intros i ch s top pos stk iss Hc Hne.
    cbn [bracket_loop]. rewrite (closes_not_opens ch Hc), Hc.
    destruct (pairs_get pairs top) as [cl|]; [|reflexivity].
    destruct (Z.eqb_spec cl ch) as [->|_]; [congruence|reflexivity].
  - intros o c Ho Hc Hne.
    apply in_set_In in Ho, Hc. simpl in Ho, Hc.
    repeat destruct Ho as [<-|Ho]; try contradiction;
    repeat destruct Hc as [<-|Hc]; try contradiction;
    try (exfalso; apply Hne; reflexivity); reflexivity.
Qed.

Lemma C10_mismatch_keeps_stack_witness :
  check_typos [65288; 12305] = [(1, 1, [12305], note_unexpected); (0, 1, [65288], note_unclosed)].
Proof. apply C10_mismatch_keeps_stack; [reflexivity | reflexivity | discriminate]. Defined.

(** ** Claims on check_duplicate_footnotes *)

Lemma text_eqb_eq a b : text_eqb a b = true <-> a = b.
Proof.
  revert b; induction a as [|x a IH]; intros [|y b]; simpl; split; intro H;
    try discriminate; try reflexivity.
  - apply andb_true_iff in H as [H1 H2]. apply Z.eqb_eq in H1. apply IH in H2. congruence.
  - inversion H; subst. rewrite Z.eqb_refl. simpl. apply IH. reflexivity.
Qed.

Lemma text_eqb_sym a b : text_eqb a b = text_eqb b a.
Proof.
  destruct (text_eqb a b) eqn:H1, (text_eqb b a) eqn:H2; try reflexivity.
  - apply text_eqb_eq in H1; subst. rewrite <- H2. symmetry. apply text_eqb_eq. reflexivity.
  - apply text_eqb_eq in H2; subst. rewrite <- H1. apply text_eqb_eq. reflexivity.
Qed.

Lemma found_mem_app k found key i :
  found_mem k (found ++ [(key, i)]) = found_mem k found || text_eqb k key.
Proof. unfold found_mem. rewrite existsb_app. simpl. rewrite orb_false_r. reflexivity. Qed.

Lemma seen_before_app pre x k :
  seen_before (pre ++ [x]) k = seen_before pre k || text_eqb (fn_key x) k.
Proof. unfold seen_before. rewrite existsb_app. simpl. rewrite orb_false_r. reflexivity. Qed.

(** [record_all] reports exactly the tokens whose key is already in
    [found] or belongs to an earlier token, and adds every new key. *)
Lemma record_all_spec : forall toks found dups pre,
  (forall k, found_mem k found = seen_before pre k) ->
  snd (record_all toks found dups) =
    dups ++ map snd (filter (fun px => seen_before (fst px) (fn_key (snd px)))
                            (with_prefixes pre toks)) /\
  (forall k, found_mem k (fst (record_all toks found dups)) = seen_before (pre ++ toks) k).
Proof.
  induction toks as [|[[i n] key] toks IH]; intros found dups pre Hf.
  - split; [simpl; rewrite app_nil_r; reflexivity|intro k; rewrite app_nil_r; apply Hf].
  - cbn [record_all with_prefixes filter map fst snd].
    change (fn_key (i, n, key)) with key. rewrite <- (Hf key).
    destruct (found_mem key found) eqn:Hk.
    + destruct (IH found (dups ++ [(i, n, key)]) (pre ++ [(i, n, key)])) as [H1 H2].
      { intro k. rewrite seen_before_app, <- Hf. unfold fn_key; simpl.
        destruct (text_eqb key k) eqn:E; [|symmetry; apply orb_false_r].
        apply text_eqb_eq in E; subst. rewrite Hk. reflexivity. }
      split; [rewrite H1, <- app_assoc; reflexivity|intro k; rewrite H2, <- app_assoc; reflexivity].
    + destruct (IH (found ++ [(key, i)]) dups (pre ++ [(i, n, key)])) as [H1 H2].
      { intro k. rewrite seen_before_app, found_mem_app, <- Hf, text_eqb_sym. reflexivity. }
      split; [exact H1|intro k; rewrite H2, <- app_assoc; reflexivity].
Qed.

Lemma record_all_app a b found dups :
  record_all (a ++ b) found dups =
  let '(found', dups') := record_all a found dups in record_all b found' dups'.
Proof.
  revert found dups; induction a as [|[[i n] key] a IH]; intros found dups; [reflexivity|].
  simpl. destruct (found_mem key found); apply IH.
Qed.

Lemma with_prefixes_app {A} (a b pre : list A) :
  with_prefixes pre (a ++ b) = with_prefixes pre a ++ with_prefixes (pre ++ a) b.
Proof.
  revert pre; induction a as [|x a IH]; intro pre; simpl.
  - rewrite app_nil_r. reflexivity.
  - rewrite IH, <- app_assoc. reflexivity.
Qed.

Lemma with_prefixes_in {A} (b pre : list A) x :
  In x b -> exists q, In (pre ++ q, x) (with_prefixes pre b).
Proof.
  revert pre; induction b as [|y b IH]; intros pre Hin; [destruct Hin|].
  destruct Hin as [<-|Hin].
  - exists []. rewrite app_nil_r. left. reflexivity.
  - destruct (IH (pre ++ [y]) Hin) as [q Hq]. exists (y :: q).
    right. rewrite <- app_assoc in Hq. exact Hq.
Qed.

(** The two passes of [check_duplicate_footnotes] share [found]: together
    they report the repeated occurrences of the bracket tokens followed by
    the superscript tokens. *)
Lemma footnotes_repeated (t : text) :
  check_duplicate_footnotes t = repeated_occurrences (bracket_tokens t ++ superscript_tokens t).
Proof.
  unfold check_duplicate_footnotes, repeated_occurrences.
  pose proof (record_all_app (bracket_tokens t) (superscript_tokens t) [] []) as Happ.
  destruct (record_all_spec (bracket_tokens t ++ superscript_tokens t) [] [] []
              (fun k => eq_refl)) as [H _].
  rewrite Happ in H. simpl in H. rewrite <- H.
  destruct (record_all (bracket_tokens t) [] []) as [found dups].
  destruct (record_all (superscript_tokens t) found dups) as [found' dups'].
  reflexivity.
Qed.

(** C2: the footnote duplicates are exactly the bracket-notation tokens
    followed by the superscript tokens that have an earlier token (in
    that scan order, at any distance) with the same key; the first
    occurrence of a key is never reported.  For foo(1) bar(2) baz(1)
    the only duplicate is the second (1), at offset 17. *)
Theorem C2_duplicates_are_repeats (t : text) :
  check_duplicate_footnotes t = repeated_occurrences (bracket_tokens t ++ superscript_tokens t) /\
  check_duplicate_footnotes
    [102;111;111;40;49;41;32;98;97;114;40;50;41;32;98;97;122;40;49;41] = [(17, 3, [49])].
Proof. split; [apply footnotes_repeated|reflexivity]. Qed.

Lemma span_stop (p : Z -> bool) (l : text) c :
  nth_error l (span p l) = Some c -> p c = false.
Proof.
  induction l as [|x l IH]; simpl; [discriminate|].
  destruct (p x) eqn:Hx; simpl; [exact IH|]. intro H; inversion H; subst; exact Hx.
Qed.

Lemma repeated_occurrences_later (a b : list finding) x y :
  In x b -> In y a -> fn_key y = fn_key x -> In x (repeated_occurrences (a ++ b)).
Proof.
  intros Hx Hy Hk. unfold repeated_occurrences. rewrite with_prefixes_app.
  destruct (with_prefixes_in b ([] ++ a) x Hx) as [q Hq].
  apply in_map_iff. exists (([] ++ a) ++ q, x). split; [reflexivity|].
  apply filter_In. split; [apply in_or_app; right; exact Hq|].
  simpl. unfold seen_before. apply existsb_exists. exists y. split.
  - apply in_or_app. left. exact Hy.
  - apply text_eqb_eq. exact Hk.
Qed.

(** ** Claims on check_terminology_inconsistency *)

Section Dict.
Variable F : text -> Z.


Lemma dict_set_keys k' v d k : In k (map fst d) -> In k (map fst (dict_set k' v d)).
Proof.
  induction d as [|[a b] d IH]; simpl; [tauto|].
  destruct (text_eqb k' a); simpl; intros [H|H]; auto.
Qed.

Lemma dict_set_new k v d : In k (map fst (dict_set k v d)).
Proof.
  induction d as [|[a b] d IH]; simpl; [left; reflexivity|].
  destruct (text_eqb k a) eqn:E; simpl; [|right; exact IH].
  left. symmetry. apply text_eqb_eq, E.
Qed.

Lemma dict_set_ok k d : dict_values_ok F d -> dict_values_ok F (dict_set k (F k) d).
Proof.
  unfold dict_values_ok.
  induction d as [|[a b] d IH]; simpl; intros Hd k0 v0 Hin.
  - destruct Hin as [Heq|[]]; inversion Heq; reflexivity.
  - destruct (text_eqb k a) eqn:E.
    + apply text_eqb_eq in E; subst.
      destruct Hin as [Heq|Hin]; [inversion Heq; reflexivity|apply (Hd k0 v0); right; exact Hin].
    + destruct Hin as [Heq|Hin]; [apply (Hd k0 v0); left; exact Heq|].
      apply (IH (fun k1 v1 H => Hd k1 v1 (or_intror H)) k0 v0 Hin).
Qed.


Lemma fold_add_terms : forall terms d, dict_values_ok F d ->
  dict_values_ok F (fold_left (add_term F) terms d) /\
  forall x, In x terms -> x <> [] -> In x (map fst (fold_left (add_term F) terms d)).
Proof.
  induction terms as [|x terms IH]; intros d Hd; simpl; [split; [exact Hd|tauto]|].
  assert (Hd' : dict_values_ok F (add_term F d x))
    by (destruct x; [exact Hd|apply dict_set_ok, Hd]).
  destruct (IH _ Hd') as [H1 H2]. split; [exact H1|].
  intros y Hy Hne. destruct Hy as [Hy|Hy]; [subst y|apply H2; auto].
  assert (Hk : In x (map fst (add_term F d x)))
    by (destruct x; [contradiction|apply dict_set_new]).
  clear -Hk. revert Hk. generalize (add_term F d x) as d0.
  induction terms as [|z terms IHt]; intros d0 Hk; simpl; [exact Hk|].
  apply IHt. destruct z; [exact Hk|apply dict_set_keys, Hk].
Qed.
End Dict.

Lemma two_distinct_length {A} (x y : A) l : In x l -> In y l -> x <> y -> (2 <= List.length l)%nat.
Proof.
  destruct l as [|a [|b l]]; simpl; try tauto.
  - intros [<-|[]] [<-|[]]; tauto.
  - intros; lia.
Qed.

Lemma row_variants_nonempty row v : In v (row_variants row) -> v <> [].
Proof.
  unfold row_variants. intro H. apply in_map_iff in H as [w [<- Hw]].
  apply filter_In in Hw as [_ Hw]. intro E. rewrite E in Hw. discriminate Hw.
Qed.

(** C6 (counterexample): the entry with an empty preferred term and the
    variants 甲|乙 gives a finding (with an empty preferred term) on a
    text containing both variants. *)
Lemma C6_empty_preferred_reported :
  check_terminology_inconsistency [30002; 20057]
    [{| zh_pref := []; zh_variants := [30002; 124; 20057] |}] =
    [{| preferred := []; found := [([30002], 1); ([20057], 1)] |}] /\
  check_terminology_inconsistency [30002; 20057]
    [{| zh_pref := []; zh_variants := [30002; 124; 20057] |}] <> [].
Proof. split; [reflexivity|discriminate]. Qed.

(** C6 (amended): an entry whose stripped preferred term is empty is
    skipped only when it has no non-blank variant either; otherwise, as
    soon as two distinct variants occur in the target, a finding with an
    empty preferred term is emitted and lists both variants with their
    counts. *)
Theorem C6_empty_preferred_variants (target : text) (row : glossary_row)
  (Hp : strip (zh_pref row) = []) :
  (row_variants row = [] -> check_terminology_inconsistency target [row] = []) /\
  (forall v1 v2, In v1 (row_variants row) -> In v2 (row_variants row) -> v1 <> v2 ->
     0 < py_count target v1 -> 0 < py_count target v2 ->
     exists fnd, check_terminology_inconsistency target [row] =
                   [{| preferred := []; found := fnd |}] /\
                 In (v1, py_count target v1) fnd /\ In (v2, py_count target v2) fnd).
Proof.
  unfold check_terminology_inconsistency. cbn [flat_map]. rewrite app_nil_r.
  unfold check_row. cbv zeta. rewrite Hp.
  split; [intros ->; reflexivity|].
  intros v1 v2 H1 H2 Hne Hc1 Hc2.
  pose proof (row_variants_nonempty row v1 H1) as Hn1.
  pose proof (row_variants_nonempty row v2 H2) as Hn2.
  change (fold_left (add_term (py_count target)) ([] :: row_variants row) [])
    with (fold_left (add_term (py_count target)) (row_variants row) []).
  destruct (fold_add_terms (py_count target) (row_variants row) []
              (fun k v H => match H with end)) as [Hok Hkeys].
  set (used := fold_left (add_term (py_count target)) (row_variants row) []) in *.
  assert (Hin : forall v, In v (row_variants row) -> v <> [] -> 0 < py_count target v ->
            In (v, py_count target v) (filter (fun '(_, c) => 0 <? c) used)).
  { intros v Hv Hvn Hc. apply filter_In. split; [|apply Z.ltb_lt, Hc].
    pose proof (Hkeys v Hv Hvn) as Hkv.
    apply in_map_iff in Hkv as [[k c] [Hk Hkc]]. simpl in Hk; subst.
    rewrite <- (Hok _ _ Hkc). exact Hkc. }
  pose proof (Hin v1 H1 Hn1 Hc1) as F1. pose proof (Hin v2 H2 Hn2 Hc2) as F2.
  assert (Hlen : Nat.ltb 1 (List.length (filter (fun '(_, c) => 0 <? c) used)) = true).
  { apply Nat.ltb_lt. eapply two_distinct_length; [exact F1|exact F2|].
    intro E; inversion E; contradiction. }
  destruct (row_variants row) as [|w ws] eqn:Hv; [destruct H1|].
  rewrite Hlen. eexists. split; [reflexivity|split; assumption].
Qed.

Lemma C6_empty_preferred_variants_witness :
  strip (zh_pref {| zh_pref := [32]; zh_variants := [30002; 124; 20057] |}) = [] /\
  exists fnd, check_terminology_inconsistency [30002; 20057]
    [{| zh_pref := [32]; zh_variants := [30002; 124; 20057] |}] =
    [{| preferred := []; found := fnd |}] /\ In ([30002], 1) fnd /\ In ([20057], 1) fnd.
Proof.
  split; [reflexivity|].
  apply (proj2 (C6_empty_preferred_variants [30002; 20057]
                  {| zh_pref := [32]; zh_variants := [30002; 124; 20057] |} eq_refl)
           [30002] [20057]); vm_compute; auto; discriminate.
Defined.

(** ** Claims on context_snippet *)

(** C8 (counterexample): only line feeds are replaced; in a text with a
    CRLF line break (a, CR, LF, b) the snippet keeps the carriage return,
    so the line break is not replaced by a single space. *)
Lemma C8_snippet_keeps_cr :
  context_snippet [97; 13; 10; 98] 0 1 = [97; 13; 32; 98] /\
  In 13 (context_snippet [97; 13; 10; 98] 0 1).
Proof. split; [reflexivity|right; left; reflexivity]. Qed.

(** C8 (amended): for a non-negative start and length, the snippet is
    the sublist of the text from [s = max(0, start - 32)] to
    [e = min(len(text), start + length + 32)] (empty when [s >= e]), with
    every line feed replaced by a space; [0 <= s] and [0 <= e <= len(text)]. *)
Theorem C8_context_snippet_slice (t : text) (start length : Z)
  (Hs : 0 <= start) (Hl : 0 <= length) :
  let s := Z.max 0 (start - 32) in
  let e := Z.min (Z.of_nat (List.length t)) (start + length + 32) in
  0 <= s /\ 0 <= e <= Z.of_nat (List.length t) /\
  context_snippet t start length =
    replace_newline (firstn (Z.to_nat (e - s)) (skipn (Z.to_nat s) t)).
Proof.
  cbv zeta. unfold context_snippet, context_snippet_pad, py_slice, slice_bound.
  set (L := Z.of_nat (List.length t)).
  assert (HL : 0 <= L) by apply Nat2Z.is_nonneg.
  split; [lia|split; [lia|]].
  destruct (Z.max 0 (start - 32) <? 0) eqn:E1; [apply Z.ltb_lt in E1; lia|].
  destruct (Z.min L (start + length + 32) <? 0) eqn:E2; [apply Z.ltb_lt in E2; lia|].
  replace (Z.min (Z.min L (start + length + 32)) L) with (Z.min L (start + length + 32)) by lia.
  destruct (Z.le_gt_cases (Z.max 0 (start - 32)) L) as [Hle|Hgt].
  - replace (Z.min (Z.max 0 (start - 32)) L) with (Z.max 0 (start - 32)) by lia.
    reflexivity.
  - replace (Z.min (Z.max 0 (start - 32)) L) with L by lia.
    rewrite !skipn_all2; [rewrite !firstn_nil; reflexivity| |]; unfold L in *; lia.
Qed.

Lemma C8_context_snippet_slice_witness :
  0 <= 0 /\ 0 <= 4 <= 4 /\
  context_snippet [97; 13; 10; 98] 0 1 = replace_newline (firstn 4 (skipn 0 [97; 13; 10; 98])).
Proof.
  exact (C8_context_snippet_slice [97; 13; 10; 98] 0 1 (Z.le_refl 0) ltac:(lia)).
Defined.

(** * Further properties of the code *)

(** ** Positions of matches *)

Lemma finditer_at {A} (m : text -> option (nat * A)) t p a :
  In (p, a) (finditer m t) ->
  0 <= p /\ exists n, m (skipn (Z.to_nat p) t) = Some (n, a).
Proof.
  intro H. destruct (finditer_from_sound m t O 0 p a H) as [Hp Hm].
  rewrite Z.sub_0_r in Hm. split; assumption.
Qed.

Lemma nth_error_skipn_cons {A} (l : list A) k x :
  nth_error l k = Some x -> exists r, skipn k l = x :: r.
Proof.
  revert k; induction l as [|y l IH]; intros [|k] H; simpl in *; try discriminate.
  - inversion H; subst; eexists; reflexivity.
  - apply IH, H.
Qed.

Lemma skipn_cons_nth {A} (l : list A) k x r :
  skipn k l = x :: r -> nth_error l k = Some x.
Proof. intro H. rewrite <- (Nat.add_0_r k), <- nth_error_skipn, H. reflexivity. Qed.

Lemma prefix_bound (t : text) p n :
  0 <= p -> (1 <= n)%nat -> (n <= List.length (skipn (Z.to_nat p) t))%nat ->
  p + Z.of_nat n <= Z.of_nat (List.length t).
Proof. intros Hp H1 H2. rewrite length_skipn in H2. lia. Qed.

Lemma match_cjk_gap_prefix gap s n g :
  match_cjk_gap gap s = Some (n, g) -> g = firstn n s /\ (3 <= n <= List.length s)%nat.
Proof.
  destruct s as [|c0 rest]; simpl; [discriminate|].
  destruct (is_cjk c0); [|discriminate].
  destruct (span gap rest) as [|k]; [discriminate|].
  destruct (nth_error rest (S k)) as [c1|] eqn:Hn; [|discriminate].
  destruct (is_cjk c1); [|discriminate].
  intro H; inversion H; subst. split; [reflexivity|].
  assert (S k < List.length rest)%nat by (apply nth_error_Some; congruence). simpl; lia.
Qed.

Lemma match_ascii_punct_at s n c :
  match_ascii_punct s = Some (n, c) ->
  n = 3%nat /\ exists c0 c2 r, s = c0 :: c :: c2 :: r /\
    is_cjk c0 = true /\ in_set ascii_punct c = true /\ is_cjk c2 = true.
Proof.
  destruct s as [|c0 [|c1 [|c2 r]]]; cbn [match_ascii_punct]; try discriminate.
  destruct (is_cjk c0) eqn:H0, (in_set ascii_punct c1) eqn:H1, (is_cjk c2) eqn:H2;
    cbn [andb]; try discriminate.
  intro H; inversion H; subst. split; [reflexivity|]. exists c0, c2, r. auto.
Qed.

Lemma span_eq_repeat c l : firstn (span (Z.eqb c) l) l = repeat c (span (Z.eqb c) l).
Proof.
  induction l as [|x l IH]; simpl; [reflexivity|].
  destruct (Z.eqb_spec c x) as [<-|_]; simpl; [rewrite IH; reflexivity|reflexivity].
Qed.

Lemma match_repeated_at s n g :
  match_repeated s = Some (n, g) ->
  exists c, in_set cjk_punct c = true /\ (2 <= n <= List.length s)%nat /\
    g = firstn n s /\ g = repeat c n /\ nth_error s n <> Some c.
Proof.
  destruct s as [|c0 rest]; cbn [match_repeated]; [discriminate|].
  destruct (in_set cjk_punct c0) eqn:Hc; [|discriminate].
  pose proof (span_eq_repeat c0 rest) as Hrep.
  pose proof (span_le (Z.eqb c0) rest) as Hle.
  pose proof (span_stop (Z.eqb c0) rest) as Hstop.
  destruct (span (Z.eqb c0) rest) as [|k] eqn:Hk; [discriminate|].
  intro H; inversion H; subst. exists c0. split; [exact Hc|].
  split; [simpl; lia|]. split; [reflexivity|]. split.
  - change (c0 :: firstn (S k) rest = c0 :: repeat c0 (S k)).
    rewrite Hrep. reflexivity.
  - simpl. intro E. specialize (Hstop c0 E). rewrite Z.eqb_refl in Hstop. discriminate.
Qed.

Lemma match_char_at zw s n u : match_char zw s = Some (n, u) -> n = 1%nat /\ exists r, s = zw :: r.
Proof.
  destruct s as [|c r]; simpl; [discriminate|].
  destruct (Z.eqb_spec c zw) as [->|_]; [|discriminate].
  intro H; inversion H; subst. split; [reflexivity|]. eexists; reflexivity.
Qed.

Lemma match_bracket_num_at op cl s n g :
  match_bracket_num op cl s = Some (n, g) ->
  firstn n s = op :: g ++ [cl] /\ n = S (S (List.length g)) /\ (n <= List.length s)%nat /\
  (1 <= List.length g <= 3)%nat /\ Forall (fun c => is_re_digit c = true) g.
Proof.
  destruct s as [|c0 rest]; cbn [match_bracket_num]; [discriminate|].
  destruct (Z.eqb_spec c0 op) as [->|_]; [|discriminate].
  pose proof (span_prefix is_re_digit rest) as Hpre.
  set (k := span is_re_digit rest) in *.
  destruct ((1 <=? k)%nat && (k <=? 3)%nat) eqn:Hb; [|discriminate].
  apply andb_true_iff in Hb as [Hb1 Hb2]. apply Nat.leb_le in Hb1, Hb2.
  destruct (nth_error rest k) as [c1|] eqn:Hn; [|discriminate].
  destruct (Z.eqb_spec c1 cl) as [->|_]; [|discriminate].
  intro H; inversion H; subst n g.
  assert (Hlt : (k < List.length rest)%nat) by (apply nth_error_Some; congruence).
  rewrite length_firstn, Nat.min_l by lia.
  split; [|split; [reflexivity|split; [simpl; lia|split; [lia|exact Hpre]]]].
  change (firstn (S (S k)) (op :: rest)) with (op :: firstn (S k) rest).
  rewrite (firstn_S_nth_error _ _ _ Hn). reflexivity.
Qed.

(** ** More on the scanner *)

Section FinditerMore.
Context {A : Type}.
Variable m : text -> option (nat * A).

(** A result never starts inside the part still covered by a match. *)
Lemma finditer_from_skip : forall s skip i p a,
  In (p, a) (finditer_from m skip i s) -> i + Z.of_nat skip <= p.
Proof.
  induction s as [|c s IH]; intros skip i p a Hin; simpl in Hin; [contradiction|].
  destruct skip as [|k].
  - destruct (finditer_from_sound m (c :: s) O i p a) as [H _]; [simpl; exact Hin|]. lia.
  - specialize (IH _ _ _ _ Hin). lia.
Qed.

(** Every match of [m] of positive length is covered by a result: either
    a result starts at its position, or the position lies inside the
    span of an earlier result. *)
Lemma finditer_from_complete
  (Hpos : forall s n a, m s = Some (n, a) -> (1 <= n)%nat) :
  forall s skip i k n a,
  (skip <= k)%nat -> (k < List.length s)%nat -> m (skipn k s) = Some (n, a) ->
  exists q a' n', In (q, a') (finditer_from m skip i s) /\
    m (skipn (Z.to_nat (q - i)) s) = Some (n', a') /\
    q <= i + Z.of_nat k < q + Z.of_nat n'.
Proof.
  induction s as [|c s IH]; intros skip i k n a Hsk Hk Hm; [simpl in Hk; lia|].
  assert (Hlift : forall skip' k', (skip' <= k')%nat -> k = S k' ->
            (exists q a' n', In (q, a') (finditer_from m skip' (i + 1) s) /\
               m (skipn (Z.to_nat (q - (i + 1))) s) = Some (n', a') /\
               q <= i + 1 + Z.of_nat k' < q + Z.of_nat n') ->
            exists q a' n', In (q, a') (finditer_from m skip' (i + 1) s) /\
               m (skipn (Z.to_nat (q - i)) (c :: s)) = Some (n', a') /\
               q <= i + Z.of_nat k < q + Z.of_nat n').
  { intros skip' k' _ -> [q [a' [n' [Hin [Hq Hb]]]]].
    pose proof (finditer_from_sound m s skip' (i + 1) q a' Hin) as [Hge _].
    exists q, a', n'. split; [exact Hin|]. split; [|lia].
    replace (Z.to_nat (q - i)) with (S (Z.to_nat (q - (i + 1)))) by lia. exact Hq. }
  destruct skip as [|j].
  - cbn [finditer_from]. destruct (m (c :: s)) as [[n0 a0]|] eqn:Hm0.
    + destruct k as [|k'].
      * exists i, a0, n0. split; [left; reflexivity|]. rewrite Z.sub_diag.
        split; [exact Hm0|]. pose proof (Hpos _ _ _ Hm0). lia.
      * destruct (Nat.le_gt_cases (Nat.pred n0) k') as [Hle|Hgt].
        -- destruct (Hlift (Nat.pred n0) k' Hle eq_refl) as [q [a' [n' [Hin Hr]]]].
           ++ apply IH with n a; [exact Hle|simpl in Hk; lia|exact Hm].
           ++ exists q, a', n'. split; [right; exact Hin|exact Hr].
        -- exists i, a0, n0. split; [left; reflexivity|]. rewrite Z.sub_diag.
           split; [exact Hm0|]. lia.
    + destruct k as [|k']; [simpl in Hm; congruence|].
      apply (Hlift O k'); [lia|reflexivity|].
      apply IH with n a; [lia|simpl in Hk; lia|exact Hm].
  - destruct k as [|k']; [lia|].
    cbn [finditer_from]. apply (Hlift j k'); [lia|reflexivity|].
    apply IH with n a; [lia|simpl in Hk; lia|exact Hm].
Qed.
End FinditerMore.

(** Results of a matcher that reports its own length do not overlap. *)
Lemma finditer_with_len_disjoint (mt : text -> option (nat * text)) : forall s skip i,
  StronglySorted (fun x y => fst x + Z.of_nat (fst (snd x)) <= fst y)
    (finditer_from (match_with_len mt) skip i s).
Proof.
  induction s as [|c s IH]; intros skip i; simpl; [constructor|].
  destruct skip as [|k]; [|apply IH].
  unfold match_with_len at 1. destruct (mt (c :: s)) as [[n g]|]; [|apply IH].
  constructor; [apply IH|].
  apply Forall_forall. intros [q [n' g']] Hin. simpl.
  pose proof (finditer_from_skip _ _ _ _ _ _ Hin). lia.
Qed.

(** ** check_extra_spaces *)

Lemma span_app_stop (p : Z -> bool) mid c r :
  Forall (fun x => p x = true) mid -> p c = false -> span p (mid ++ c :: r) = List.length mid.
Proof.
  induction 1 as [|x mid Hx _ IH]; intro Hc; simpl; [rewrite Hc; reflexivity|].
  rewrite Hx, IH by exact Hc. reflexivity.
Qed.

Lemma gap_findings_bounds gap t p n g :
  In (p, n, g) (map to_finding (finditer (match_with_len (match_cjk_gap gap)) t)) ->
  0 <= p /\ 3 <= n /\ p + n <= Z.of_nat (List.length t) /\ g = slice t p n.
Proof.
  intro H. apply in_map_iff in H as [[p' [n' g']] [Heq Hin]].
  cbn [to_finding] in Heq. inversion Heq; subst.
  destruct (finditer_at _ _ _ _ Hin) as [Hp [n0 Hm]].
  unfold match_with_len in Hm.
  destruct (match_cjk_gap gap (skipn (Z.to_nat p) t)) as [[n1 g1]|] eqn:Hg; [|discriminate].
  inversion Hm; subst.
  destruct (match_cjk_gap_prefix _ _ _ _ Hg) as [-> Hb].
  rewrite length_skipn in Hb. unfold slice. rewrite Nat2Z.id.
  split; [exact Hp|split; [lia|split; [lia|reflexivity]]].
Qed.

Lemma gap_match_pos gap s n a :
  match_with_len (match_cjk_gap gap) s = Some (n, a) -> (1 <= n)%nat.
Proof.
  unfold match_with_len. destruct (match_cjk_gap gap s) as [[n0 g0]|] eqn:Hg; [|discriminate].
  intro H; inversion H; subst. destruct (match_cjk_gap_prefix _ _ _ _ Hg). lia.
Qed.

Lemma gap_findings_complete gap t k c0 mid c1 r :
  skipn k t = c0 :: mid ++ c1 :: r -> is_cjk c0 = true -> is_cjk c1 = true -> mid <> [] ->
  Forall (fun c => gap c = true) mid -> gap c1 = false ->
  exists p n g, In (p, n, g) (map to_finding (finditer (match_with_len (match_cjk_gap gap)) t)) /\
    p <= Z.of_nat k < p + n.
Proof.
  intros Hs H0 H1 Hmid Hgap Hc1.
  assert (Hm : match_with_len (match_cjk_gap gap) (skipn k t) =
                 Some (S (S (List.length mid)), (S (S (List.length mid)),
                   firstn (S (S (List.length mid))) (skipn k t)))).
  { unfold match_with_len. rewrite Hs. cbn [match_cjk_gap].
    rewrite H0, (span_app_stop _ _ _ _ Hgap Hc1).
    destruct mid as [|x mid']; [congruence|].
    rewrite nth_error_app2, Nat.sub_diag by lia. cbn [nth_error]. rewrite H1. reflexivity. }
  assert (Hk : (k < List.length t)%nat).
  { destruct (Nat.lt_ge_cases k (List.length t)) as [Hlt|Hge]; [exact Hlt|].
    rewrite skipn_all2 in Hs by exact Hge. discriminate. }
  destruct (finditer_from_complete _ (gap_match_pos gap) t O 0 k _ _ (Nat.le_0_l k) Hk Hm)
    as [q [[n' g'] [n'' [Hin [Hq Hb]]]]].
  rewrite Z.sub_0_r in Hq. unfold match_with_len in Hq.
  destruct (match_cjk_gap gap (skipn (Z.to_nat q) t)) as [[n2 g2]|]; [|discriminate].
  injection Hq as <- <- <-.
  exists q, (Z.of_nat n2), g2. split; [|lia].
  apply in_map_iff. exists (q, (n2, g2)). split; [reflexivity|exact Hin].
Qed.

Lemma extra_spaces_bounds (t : text) (p n : Z) (g : text)
  (Hin : In (p, n, g) (check_extra_spaces t)) :
  0 <= p /\ 3 <= n /\ p + n <= Z.of_nat (List.length t) /\ g = slice t p n.
Proof.
  unfold check_extra_spaces in Hin.
  apply in_app_or in Hin as [H|H]; eapply gap_findings_bounds; exact H.
Qed.

(** Every finding of [check_extra_spaces] lies inside the text, spans at
    least three characters, and its token is the slice of the text it
    covers. *)
Theorem extra_spaces_in_bounds (t : text) (p n : Z) (g : text)
  (Hin : In (p, n, g) (check_extra_spaces t)) :
  0 <= p /\ 3 <= n /\ p + n <= Z.of_nat (List.length t) /\ g = slice t p n.
Proof. exact (extra_spaces_bounds t p n g Hin). Qed.

Lemma extra_spaces_in_bounds_witness :
  0 <= 2 /\ 3 <= 3 /\ 2 + 3 <= 5 /\ [25991; 32; 23383] = slice [20013; 12288; 25991; 32; 23383] 2 3.
Proof.
  apply (extra_spaces_in_bounds [20013; 12288; 25991; 32; 23383] 2 3 [25991; 32; 23383]).
  vm_compute. left. reflexivity.
Defined.

(** Every occurrence of an ideograph, a non-empty run of spaces and tabs
    (or of U+3000) and an ideograph is reported: some finding starts at
    its position or covers it. *)
Theorem extra_spaces_complete (t : text) (k : nat) (c0 c1 : Z) (mid r : text)
  (Hs : skipn k t = c0 :: mid ++ c1 :: r) (H0 : is_cjk c0 = true) (H1 : is_cjk c1 = true)
  (Hmid : mid <> [])
  (Hgap : Forall (fun c => is_space_tab c = true) mid \/
          Forall (fun c => is_fullwidth_space c = true) mid) :
  exists p n g, In (p, n, g) (check_extra_spaces t) /\ p <= Z.of_nat k < p + n.
Proof.
  destruct (cjk_not_gap c1 H1) as [Hs1 Hf1]. unfold check_extra_spaces.
  destruct Hgap as [Hg|Hg].
  - destruct (gap_findings_complete _ _ _ _ _ _ _ Hs H0 H1 Hmid Hg Hs1) as [p [n [g [Hin Hb]]]].
    exists p, n, g. split; [apply in_or_app; left; exact Hin|exact Hb].
  - destruct (gap_findings_complete _ _ _ _ _ _ _ Hs H0 H1 Hmid Hg Hf1) as [p [n [g [Hin Hb]]]].
    exists p, n, g. split; [apply in_or_app; right; exact Hin|exact Hb].
Qed.

Lemma extra_spaces_complete_witness :
  exists p n g, In (p, n, g) (check_extra_spaces [20013; 32; 25991; 32; 23383]) /\
    p <= Z.of_nat 2 < p + n.
Proof.
  apply (extra_spaces_complete [20013; 32; 25991; 32; 23383] 2 25991 23383 [32] []);
    [reflexivity|reflexivity|reflexivity|discriminate|left; repeat constructor].
Defined.

(** Within each whitespace class the findings do not overlap: each one
    ends at or before the start of the next. *)
Theorem extra_spaces_no_overlap (t : text) :
  exists l1 l2, check_extra_spaces t = l1 ++ l2 /\
    StronglySorted (fun a b : finding => fst (fst a) + snd (fst a) <= fst (fst b)) l1 /\
    StronglySorted (fun a b : finding => fst (fst a) + snd (fst a) <= fst (fst b)) l2 /\
    Forall (gap_match is_space_tab) l1 /\
    Forall (gap_match is_fullwidth_space) l2.
Proof.
  eexists _, _. split; [reflexivity|].
  split; [|split]; [| |split; apply gap_findings_shape];
    apply StronglySorted_map; eapply StronglySorted_weaken; try apply finditer_with_len_disjoint;
    intros [p [n g]] [q [n' g']] H; simpl in *; exact H.
Qed.

(** ** check_typos *)

Lemma bracket_loop_unexpected_at (t : text) : forall s i stk iss x,
  0 <= i -> skipn (Z.to_nat i) t = s ->
  In x (snd (bracket_loop i s stk iss)) ->
  In x iss \/ exists j ch, x = (j, 1, [ch], note_unexpected) /\ i <= j /\
    nth_error t (Z.to_nat j) = Some ch /\ in_set closes ch = true.
Proof.
  induction s as [|c s IH]; intros i stk iss x Hi Hs Hin; cbn [bracket_loop snd] in Hin;
    [left; exact Hin|].
  apply skipn_cons_nth_error in Hs as [Hnth Hs].
  assert (Hs' : skipn (Z.to_nat (i + 1)) t = s)
    by (replace (Z.to_nat (i + 1)) with (S (Z.to_nat i)) by lia; exact Hs).
  assert (Hi' : 0 <= i + 1) by lia.
  assert (Hnext : forall stk' iss', In x (snd (bracket_loop (i + 1) s stk' iss')) ->
            In x iss' \/ exists j ch, x = (j, 1, [ch], note_unexpected) /\ i <= j /\
              nth_error t (Z.to_nat j) = Some ch /\ in_set closes ch = true).
  { intros stk' iss' H.
    destruct (IH _ _ _ _ Hi' Hs' H) as [H'|[j [ch [Hx [Hj Hr]]]]]; [left; exact H'|].
    right. exists j, ch. split; [exact Hx|split; [lia|exact Hr]]. }
  assert (Hadd : in_set closes c = true -> forall stk',
            In x (snd (bracket_loop (i + 1) s stk' (iss ++ [(i, 1, [c], note_unexpected)]))) ->
            In x iss \/ exists j ch, x = (j, 1, [ch], note_unexpected) /\ i <= j /\
              nth_error t (Z.to_nat j) = Some ch /\ in_set closes ch = true).
  { intros Hc stk' H. destruct (Hnext _ _ H) as [H'|H']; [|right; exact H'].
    apply in_app_or in H' as [H'|[<-|[]]]; [left; exact H'|].
    right. exists i, c. split; [reflexivity|split; [lia|split; assumption]]. }
  destruct (in_set opens c); [exact (Hnext _ _ Hin)|].
  destruct (in_set closes c) eqn:Hc; [|exact (Hnext _ _ Hin)].
  destruct stk as [|[top q] stk']; [exact (Hadd eq_refl _ Hin)|].
  destruct (pairs_get pairs top) as [cl|]; [destruct (cl =? c)|];
    [exact (Hnext _ _ Hin)|exact (Hadd eq_refl _ Hin)|exact (Hadd eq_refl _ Hin)].
Qed.

(** The five kinds of issues of [check_typos], each at its own place in
    the text. *)
Lemma typo_cases (t : text) p n tok note :
  In (p, n, tok, note) (check_typos t) ->
  (note = note_ascii /\ n = 1 /\ 1 <= p /\ exists c0 c c2 r,
     skipn (Z.to_nat (p - 1)) t = c0 :: c :: c2 :: r /\ tok = [c] /\
     is_cjk c0 = true /\ in_set ascii_punct c = true /\ is_cjk c2 = true) \/
  (note = note_repeated /\ 0 <= p /\ 0 <= n /\
     match_repeated (skipn (Z.to_nat p) t) = Some (Z.to_nat n, tok)) \/
  (note = note_unexpected /\ n = 1 /\ exists ch, tok = [ch] /\ 0 <= p /\
     nth_error t (Z.to_nat p) = Some ch /\ in_set closes ch = true) \/
  (note = note_unclosed /\ n = 1 /\ exists ch, tok = [ch] /\ opener_at t ch p) \/
  (note = note_zw /\ n = 1 /\ exists c, tok = [c] /\ In c zero_width /\ 0 <= p /\
     nth_error t (Z.to_nat p) = Some c).
Proof.
  intro Hin. unfold check_typos in Hin.
  lazymatch type of Hin with
  | context [bracket_loop 0 t [] ?i0] => set (iss0 := i0) in Hin
  end.
  destruct (bracket_loop 0 t [] iss0) as [stk iss] eqn:Hb.
  pose proof (bracket_loop_stack t t 0 [] iss0 (Z.le_refl 0) eq_refl
                (fun _ _ H => match H with end)) as Hstk.
  rewrite Hb in Hstk; simpl in Hstk.
  pose proof (bracket_loop_unexpected_at t t 0 [] iss0 (p, n, tok, note)
                (Z.le_refl 0) eq_refl) as Hun.
  rewrite Hb in Hun; simpl in Hun.
  apply in_app_or in Hin as [Hin|Hin]; [apply in_app_or in Hin as [Hin|Hin]|].
  - destruct (Hun Hin) as [H|[j [ch [Hx [Hj [Hnth Hc]]]]]].
    + apply in_app_or in H as [H|H].
      * left. apply in_map_iff in H as [[i c] [Hx Hi]]. injection Hx as <- <- <- <-.
        destruct (finditer_at _ _ _ _ Hi) as [Hp [n0 Hm]].
        destruct (match_ascii_punct_at _ _ _ Hm) as [_ [c0 [c2 [r [Hs [H0 [Hc H2]]]]]]].
        split; [reflexivity|split; [reflexivity|split; [lia|]]].
        exists c0, c, c2, r. replace (i + 1 - 1) with i by lia. auto.
      * right; left. apply in_map_iff in H as [[i [n0 g]] [Hx Hi]].
        injection Hx as <- <- <- <-.
        destruct (finditer_at _ _ _ _ Hi) as [Hp [n1 Hm]].
        unfold match_with_len in Hm.
        destruct (match_repeated (skipn (Z.to_nat i) t)) as [[n2 g2]|] eqn:Hr;
          [|discriminate].
        injection Hm as <- <- <-. rewrite Nat2Z.id.
        split; [reflexivity|split; [exact Hp|split; [lia|reflexivity]]].
    + right; right; left. injection Hx as -> -> -> ->.
      split; [reflexivity|split; [reflexivity|]]. exists ch. auto.
  - right; right; right; left. unfold unclosed_issues in Hin.
    apply in_map_iff in Hin as [[ch pos] [Hx Hr]]. injection Hx as <- <- <- <-.
    apply in_rev in Hr.
    split; [reflexivity|split; [reflexivity|]]. exists ch. split; [reflexivity|].
    exact (Hstk ch pos Hr).
  - right; right; right; right.
    apply in_flat_map in Hin as [zw [Hzw Hz]]. apply in_map_iff in Hz as [[i u] [Hx Hi]].
    injection Hx as <- <- <- <-.
    destruct (finditer_at _ _ _ _ Hi) as [Hp [n0 Hm]].
    destruct (match_char_at _ _ _ _ Hm) as [_ [r Hs]].
    split; [reflexivity|split; [reflexivity|]]. exists zw.
    split; [reflexivity|split; [exact Hzw|split; [exact Hp|]]].
    exact (skipn_cons_nth _ _ _ _ Hs).
Qed.

Lemma slice_of_skipn (t : text) p n r :
  0 <= p -> 1 <= n -> skipn (Z.to_nat p) t = r -> (Z.to_nat n <= List.length r)%nat ->
  p + n <= Z.of_nat (List.length t) /\ slice t p n = firstn (Z.to_nat n) r.
Proof.
  intros Hp Hn Hs Hl. subst r. rewrite length_skipn in Hl.
  split; [lia|reflexivity].
Qed.

Lemma nth_slice1 (t : text) p c :
  0 <= p -> nth_error t (Z.to_nat p) = Some c ->
  p + 1 <= Z.of_nat (List.length t) /\ [c] = slice t p 1.
Proof.
  intros Hp Hn. destruct (nth_error_skipn_cons _ _ _ Hn) as [r Hs].
  destruct (slice_of_skipn t p 1 _ Hp ltac:(lia) Hs) as [H1 H2]; [simpl; lia|].
  split; [exact H1|rewrite H2; reflexivity].
Qed.

Lemma typos_bounds (t : text) (p n : Z) (tok : text) (note : string)
  (Hin : In (p, n, tok, note) (check_typos t)) :
  0 <= p /\ 1 <= n /\ p + n <= Z.of_nat (List.length t) /\ tok = slice t p n.
Proof.
  destruct (typo_cases t p n tok note Hin) as
    [[_ [-> [Hp [c0 [c [c2 [r [Hs [-> _]]]]]]]]]
    |[[_ [Hp [Hn Hm]]]
    |[[_ [-> [ch [-> [Hp [Hnth _]]]]]]
    |[[_ [-> [ch [-> [Hp [Hnth _]]]]]]
    |[_ [-> [c [-> [_ [Hp Hnth]]]]]]]]]].
  - apply skipn_cons_nth_error in Hs as [_ Hs].
    replace (S (Z.to_nat (p - 1))) with (Z.to_nat p) in Hs by lia.
    destruct (slice_of_skipn t p 1 _ ltac:(lia) ltac:(lia) Hs) as [H1 H2]; [simpl; lia|].
    split; [lia|split; [lia|split; [exact H1|rewrite H2; reflexivity]]].
  - destruct (match_repeated_at _ _ _ Hm) as [c [_ [Hb [Hg _]]]].
    destruct (slice_of_skipn t p n _ Hp ltac:(lia) eq_refl ltac:(lia)) as [H1 H2].
    split; [exact Hp|split; [lia|split; [exact H1|rewrite H2; exact Hg]]].
  - destruct (nth_slice1 t p ch Hp Hnth). split; [exact Hp|split; [lia|auto]].
  - destruct (nth_slice1 t p ch Hp Hnth). split; [exact Hp|split; [lia|auto]].
  - destruct (nth_slice1 t p c Hp Hnth). split; [exact Hp|split; [lia|auto]].
Qed.

(** Every issue of [check_typos] lies inside the text, has a positive
    length, and its token is the slice of the text it covers. *)
Theorem typos_in_bounds (t : text) (p n : Z) (tok : text) (note : string)
  (Hin : In (p, n, tok, note) (check_typos t)) :
  0 <= p /\ 1 <= n /\ p + n <= Z.of_nat (List.length t) /\ tok = slice t p n.
Proof. exact (typos_bounds t p n tok note Hin). Qed.

Lemma typos_in_bounds_witness :
  0 <= 1 /\ 1 <= 1 /\ 1 + 1 <= 5 /\ [44] = slice [20320; 44; 22909; 44; 21966] 1 1.
Proof.
  apply (typos_in_bounds [20320; 44; 22909; 44; 21966] 1 1 [44] note_ascii).
  vm_compute. left. reflexivity.
Defined.

(** An ASCII-punctuation issue points at a punctuation character of the
    list whose left and right neighbours are both ideographs. *)
Theorem typos_ascii_between_cjk (t : text) (p n : Z) (tok : text)
  (Hin : In (p, n, tok, note_ascii) (check_typos t)) :
  n = 1 /\ 1 <= p /\ exists c0 c c2, tok = [c] /\
    nth_error t (Z.to_nat (p - 1)) = Some c0 /\ is_cjk c0 = true /\
    nth_error t (Z.to_nat p) = Some c /\ In c ascii_punct /\
    nth_error t (Z.to_nat (p + 1)) = Some c2 /\ is_cjk c2 = true.
Proof.
  destruct (typo_cases t p n tok note_ascii Hin) as
    [[_ [-> [Hp [c0 [c [c2 [r [Hs [-> [H0 [Hc H2]]]]]]]]]]]|[[E _]|[[E _]|[[E _]|[E _]]]]];
    [|notes_neq..].
  split; [reflexivity|split; [exact Hp|]]. exists c0, c, c2.
  apply skipn_cons_nth_error in Hs as [N0 Hs].
  apply skipn_cons_nth_error in Hs as [N1 Hs].
  apply skipn_cons_nth_error in Hs as [N2 _].
  replace (S (Z.to_nat (p - 1))) with (Z.to_nat p) in N1, N2 by lia.
  replace (S (Z.to_nat p)) with (Z.to_nat (p + 1)) in N2 by lia.
  repeat split; auto. apply in_set_In, Hc.
Qed.

Lemma typos_ascii_between_cjk_witness :
  1 = 1 /\ 1 <= 1 /\ exists c0 c c2, [44] = [c] /\
    nth_error [20320; 44; 22909; 44; 21966] (Z.to_nat (1 - 1)) = Some c0 /\ is_cjk c0 = true /\
    nth_error [20320; 44; 22909; 44; 21966] (Z.to_nat 1) = Some c /\ In c ascii_punct /\
    nth_error [20320; 44; 22909; 44; 21966] (Z.to_nat (1 + 1)) = Some c2 /\ is_cjk c2 = true.
Proof.
  apply (typos_ascii_between_cjk [20320; 44; 22909; 44; 21966] 1 1 [44]).
  vm_compute. left. reflexivity.
Defined.

(** An unexpected-closer issue points at a closing character of the pair
    table at its own offset. *)
Theorem typos_unexpected_at_closer (t : text) (p n : Z) (tok : text)
  (Hin : In (p, n, tok, note_unexpected) (check_typos t)) :
  n = 1 /\ exists ch, tok = [ch] /\ 0 <= p /\ nth_error t (Z.to_nat p) = Some ch /\
    In ch closes.
Proof.
  destruct (typo_cases t p n tok note_unexpected Hin) as
    [[E _]|[[E _]|[[_ [-> [ch [-> [Hp [Hnth Hc]]]]]]|[[E _]|[E _]]]]];
    [notes_neq|notes_neq| |notes_neq|notes_neq].
  split; [reflexivity|]. exists ch. repeat split; auto. apply in_set_In, Hc.
Qed.

Lemma typos_unexpected_at_closer_witness :
  1 = 1 /\ exists ch, [65289] = [ch] /\ 0 <= 2 /\
    nth_error [28204; 35430; 65289] (Z.to_nat 2) = Some ch /\ In ch closes.
Proof.
  apply (typos_unexpected_at_closer [28204; 35430; 65289] 2 1 [65289]).
  vm_compute. left. reflexivity.
Defined.

Lemma match_char_pos zw s n u : match_char zw s = Some (n, u) -> (1 <= n)%nat.
Proof. intro H. destruct (match_char_at _ _ _ _ H) as [-> _]. lia. Qed.

(** The zero-width issues are exactly the occurrences of U+200B, U+200C,
    U+200D and U+FEFF in the text, each reported with length 1 at its
    own offset. *)
Theorem typos_zero_width_exact (t : text) (p n : Z) (tok : text) :
  In (p, n, tok, note_zw) (check_typos t) <->
  n = 1 /\ exists c, tok = [c] /\ In c zero_width /\ 0 <= p /\
    nth_error t (Z.to_nat p) = Some c.
Proof.
  split.
  - intro Hin.
    destruct (typo_cases t p n tok note_zw Hin) as
      [[E _]|[[E _]|[[E _]|[[E _]|[_ H]]]]]; [notes_neq..|exact H].
  - intros [-> [c [-> [Hc [Hp Hnth]]]]].
    destruct (nth_error_skipn_cons _ _ _ Hnth) as [r Hs].
    assert (Hk : (Z.to_nat p < List.length t)%nat) by (apply nth_error_Some; congruence).
    assert (Hm : match_char c (skipn (Z.to_nat p) t) = Some (1%nat, tt))
      by (rewrite Hs; cbn [match_char]; rewrite Z.eqb_refl; reflexivity).
    destruct (finditer_from_complete _ (match_char_pos c) t O 0 (Z.to_nat p) _ _
                (Nat.le_0_l _) Hk Hm) as [q [u [n' [Hin [Hq Hb]]]]].
    destruct (match_char_at _ _ _ _ Hq) as [-> _].
    assert (q = p) as -> by lia. destruct u.
    unfold check_typos.
    destruct (bracket_loop 0 t [] _) as [stk iss].
    apply in_or_app. right. apply in_flat_map. exists c. split; [exact Hc|].
    apply in_map_iff. exists (p, tt). split; [reflexivity|exact Hin].
Qed.

Lemma StronglySorted_pair {A} (R : A -> A -> Prop) (l : list A) x y :
  StronglySorted R l -> In x l -> In y l -> x = y \/ R x y \/ R y x.
Proof.
  induction 1 as [|a l _ IH HF]; intros Hx Hy; [destruct Hx|].
  destruct Hx as [<-|Hx], Hy as [<-|Hy].
  - left; reflexivity.
  - right; left. rewrite Forall_forall in HF. apply HF, Hy.
  - right; right. rewrite Forall_forall in HF. apply HF, Hx.
  - apply IH; assumption.
Qed.

Lemma match_with_len_repeated_pos s n a :
  match_with_len match_repeated s = Some (n, a) -> (1 <= n)%nat.
Proof.
  unfold match_with_len. destruct (match_repeated s) as [[n0 g0]|] eqn:Hr; [|discriminate].
  intro H; inversion H; subst. destruct (match_repeated_at _ _ _ Hr) as [c [_ [Hb _]]]. lia.
Qed.

(** The runs found by the repeated-punctuation scan are maximal on both
    sides: the character before and the character after differ from the
    repeated one. *)
Lemma repeated_runs_maximal (t : text) p n g :
  In (p, (n, g)) (finditer (match_with_len match_repeated) t) ->
  exists c, in_set cjk_punct c = true /\ (2 <= n)%nat /\ g = repeat c n /\
    g = firstn n (skipn (Z.to_nat p) t) /\ (Z.to_nat p + n <= List.length t)%nat /\
    nth_error t (Z.to_nat p + n) <> Some c /\
    (p = 0 \/ nth_error t (Z.to_nat (p - 1)) <> Some c).
Proof.
  intro Hin. destruct (finditer_at _ _ _ _ Hin) as [Hp [n0 Hm]].
  unfold match_with_len in Hm.
  destruct (match_repeated (skipn (Z.to_nat p) t)) as [[n1 g1]|] eqn:Hr; [|discriminate].
  injection Hm as <- <- <-.
  destruct (match_repeated_at _ _ _ Hr) as [c [Hc [Hb [Hg1 [Hg2 Hstop]]]]].
  rewrite length_skipn in Hb.
  exists c. split; [exact Hc|split; [lia|split; [exact Hg2|split; [exact Hg1|split; [lia|]]]]].
  split; [rewrite <- nth_error_skipn; exact Hstop|].
  destruct (Z.eq_dec p 0) as [->|Hp0]; [left; reflexivity|right]. intro Hprev.
  (* the character at p is c, so a run of c starts at p - 1 *)
  assert (Hat : nth_error (skipn (Z.to_nat p) t) 0 = Some c).
  { rewrite <- (firstn_skipn n1 (skipn (Z.to_nat p) t)), <- Hg1, Hg2, nth_error_app1
      by (rewrite repeat_length; lia).
    apply nth_error_repeat. lia. }
  destruct (nth_error_skipn_cons _ _ _ Hat) as [r0 Hr0]. simpl in Hr0.
  assert (Hsk : skipn (Z.to_nat (p - 1)) t = c :: c :: r0).
  { destruct (nth_error_skipn_cons _ _ _ Hprev) as [r1 Hr1].
    pose proof (skipn_cons_nth_error _ _ _ _ Hr1) as [_ Hr1'].
    replace (S (Z.to_nat (p - 1))) with (Z.to_nat p) in Hr1' by lia.
    rewrite Hr1, <- Hr1', Hr0. reflexivity. }
  assert (Hm' : exists n2 g2, match_with_len match_repeated (skipn (Z.to_nat (p - 1)) t) =
                                Some (n2, (n2, g2))).
  { rewrite Hsk. unfold match_with_len. cbn [match_repeated]. rewrite Hc. cbn [span].
    rewrite Z.eqb_refl. eexists _, _. reflexivity. }
  destruct Hm' as [n2 [g2 Hm']].
  assert (Hk : (Z.to_nat (p - 1) < List.length t)%nat) by (apply nth_error_Some; congruence).
  destruct (finditer_from_complete _ match_with_len_repeated_pos t O 0 (Z.to_nat (p - 1)) _ _
              (Nat.le_0_l _) Hk Hm') as [q [[n3 g3] [n4 [Hinq [Hq Hbq]]]]].
  rewrite Z.sub_0_r in Hq. unfold match_with_len in Hq.
  destruct (match_repeated (skipn (Z.to_nat q) t)) as [[n5 g5]|] eqn:Hrq; [|discriminate].
  injection Hq as <- <- <-.
  destruct (match_repeated_at _ _ _ Hrq) as [c' [_ [Hbq' [Hgq1 [Hgq2 Hstopq]]]]].
  (* the two results are disjoint, so the earlier one ends exactly at p *)
  pose proof (StronglySorted_pair _ _ _ _ (finditer_with_len_disjoint match_repeated t O 0)
                Hinq Hin) as Hord.
  cbn [fst snd] in Hord.
  assert (Hend : q + Z.of_nat n5 = p).
  { destruct Hord as [E|[E|E]]; [injection E as E1 _; lia|lia|lia]. }
  (* the last character of that run is the character at p - 1, i.e. c *)
  assert (Hc' : c' = c).
  { assert (E : nth_error g5 (Z.to_nat (p - 1) - Z.to_nat q) = Some c).
    { rewrite Hgq1, nth_error_firstn.
      replace (Nat.ltb (Z.to_nat (p - 1) - Z.to_nat q) n5) with true
        by (symmetry; apply Nat.ltb_lt; lia).
      rewrite nth_error_skipn. replace (Z.to_nat q + (Z.to_nat (p - 1) - Z.to_nat q))%nat
        with (Z.to_nat (p - 1)) by lia. exact Hprev. }
    rewrite Hgq2, nth_error_repeat in E by lia. injection E as E. exact E. }
  destruct (finditer_at _ _ _ _ Hinq) as [Hq0 _].
  subst c'. apply Hstopq. rewrite nth_error_skipn.
  replace (Z.to_nat q + n5)%nat with (Z.to_nat p) by lia.
  rewrite <- (Nat.add_0_r (Z.to_nat p)), <- nth_error_skipn. exact Hat.
Qed.

Lemma typos_repeated_source (t : text) p n tok :
  In (p, n, tok, note_repeated) (check_typos t) ->
  exists n0, n = Z.of_nat n0 /\ In (p, (n0, tok)) (finditer (match_with_len match_repeated) t).
Proof.
  intro Hin. unfold check_typos in Hin.
  lazymatch type of Hin with
  | context [bracket_loop 0 t [] ?i0] => set (iss0 := i0) in Hin
  end.
  pose proof (bracket_loop_issues t 0 [] iss0 (p, n, tok, note_repeated)) as Hiss.
  destruct (bracket_loop 0 t [] iss0) as [stk iss]. simpl in Hiss.
  apply in_app_or in Hin as [Hin|Hin]; [apply in_app_or in Hin as [Hin|Hin]|].
  - destruct (Hiss Hin) as [H|H]; [|simpl in H; notes_neq].
    apply in_app_or in H as [H|H].
    + apply in_map_iff in H as [[i c] [Hx _]]. apply (f_equal snd) in Hx. cbn [snd] in Hx. notes_neq.
    + apply in_map_iff in H as [[i [n0 g]] [Hx Hi]]. injection Hx as <- <- <-.
      exists n0. split; [reflexivity|exact Hi].
  - apply in_map_iff in Hin as [[ch pos] [Hx _]]. apply (f_equal snd) in Hx. cbn [snd] in Hx. notes_neq.
  - apply in_flat_map in Hin as [zw [_ Hz]]. apply in_map_iff in Hz as [[i u] [Hx _]].
    apply (f_equal snd) in Hx. cbn [snd] in Hx. notes_neq.
Qed.

(** A repeated-punctuation issue covers a maximal run of at least two
    copies of one character of [，。；：？！、]: the characters just
    before and just after the run differ from it. *)
Theorem typos_repeated_maximal (t : text) (p n : Z) (tok : text)
  (Hin : In (p, n, tok, note_repeated) (check_typos t)) :
  exists c, In c cjk_punct /\ 2 <= n /\ 0 <= p /\ p + n <= Z.of_nat (List.length t) /\
    tok = slice t p n /\ tok = repeat c (Z.to_nat n) /\
    nth_error t (Z.to_nat (p + n)) <> Some c /\
    (p = 0 \/ nth_error t (Z.to_nat (p - 1)) <> Some c).
Proof.
  destruct (typos_repeated_source t p n tok Hin) as [n0 [-> Hr]].
  destruct (finditer_at _ _ _ _ Hr) as [Hp _].
  destruct (repeated_runs_maximal t p n0 tok Hr) as [c [Hc [Hb [Hg1 [Hg2 [Hl [Hnext Hprev]]]]]]].
  exists c. rewrite Nat2Z.id. unfold slice. rewrite Nat2Z.id.
  split; [apply in_set_In, Hc|]. split; [lia|split; [exact Hp|split; [lia|]]].
  split; [exact Hg2|split; [exact Hg1|split; [|exact Hprev]]].
  replace (Z.to_nat (p + Z.of_nat n0)) with (Z.to_nat p + n0)%nat by lia. exact Hnext.
Qed.

Lemma typos_repeated_maximal_witness :
  exists c, In c cjk_punct /\ 2 <= 3 /\ 0 <= 1 /\ 1 + 3 <= Z.of_nat 5 /\
    [12290; 12290; 12290] = slice [97; 12290; 12290; 12290; 97] 1 3 /\
    [12290; 12290; 12290] = repeat c (Z.to_nat 3) /\
    nth_error [97; 12290; 12290; 12290; 97] (Z.to_nat (1 + 3)) <> Some c /\
    (1 = 0 \/ nth_error [97; 12290; 12290; 12290; 97] (Z.to_nat (1 - 1)) <> Some c).
Proof.
  apply (typos_repeated_maximal [97; 12290; 12290; 12290; 97] 1 3 [12290; 12290; 12290]).
  vm_compute. left. reflexivity.
Defined.

Lemma count_note_app nt l1 l2 : count_note nt (l1 ++ l2) = (count_note nt l1 + count_note nt l2)%nat.
Proof. unfold count_note. rewrite filter_app, length_app. reflexivity. Qed.

Lemma count_note_one p n tok nt : count_note nt [(p, n, tok, nt)] = 1%nat.
Proof. unfold count_note. cbn [filter snd]. rewrite String.eqb_refl. reflexivity. Qed.

Lemma count_note_zero nt l : (forall x, In x l -> snd x <> nt) -> count_note nt l = 0%nat.
Proof.
  unfold count_note. induction l as [|x l IH]; intro H; [reflexivity|].
  cbn [filter]. destruct (String.eqb_spec (snd x) nt) as [E|_].
  - exfalso. exact (H x (or_introl eq_refl) E).
  - apply IH. intros y Hy. apply H. right. exact Hy.
Qed.

Lemma count_note_all nt l : (forall x, In x l -> snd x = nt) -> count_note nt l = List.length l.
Proof.
  unfold count_note. induction l as [|x l IH]; intro H; [reflexivity|].
  cbn [filter List.length]. rewrite (H x (or_introl eq_refl)), String.eqb_refl.
  cbn [List.length]. rewrite IH; [reflexivity|]. intros y Hy. apply H. right. exact Hy.
Qed.

(** Every opener is pushed, and every closer either pops the stack or
    adds an unexpected-closer issue. *)
Lemma bracket_loop_count : forall s i stk iss,
  (List.length (fst (bracket_loop i s stk iss)) + List.length (filter (in_set closes) s) +
   count_note note_unexpected iss =
   List.length stk + List.length (filter (in_set opens) s) +
   count_note note_unexpected (snd (bracket_loop i s stk iss)))%nat.
Proof.
  induction s as [|c s IH]; intros i stk iss; cbn [bracket_loop filter fst snd];
    [rewrite Nat.add_0_r; reflexivity|].
  destruct (in_set opens c) eqn:Ho.
  - destruct (in_set closes c) eqn:Hc;
      [rewrite (closes_not_opens c Hc) in Ho; discriminate|].
    specialize (IH (i + 1) ((c, i) :: stk) iss). cbn [List.length] in *. lia.
  - destruct (in_set closes c) eqn:Hc; [|apply IH].
    cbn [List.length].
    destruct stk as [|[top q] stk'].
    + specialize (IH (i + 1) [] (iss ++ [(i, 1, [c], note_unexpected)])).
      rewrite count_note_app, count_note_one in IH. lia.
    + destruct (pairs_get pairs top) as [cl|]; [destruct (cl =? c)|].
      * specialize (IH (i + 1) stk' iss). cbn [List.length]. lia.
      * specialize (IH (i + 1) ((top, q) :: stk') (iss ++ [(i, 1, [c], note_unexpected)])).
        rewrite count_note_app, count_note_one in IH. lia.
      * specialize (IH (i + 1) ((top, q) :: stk') (iss ++ [(i, 1, [c], note_unexpected)])).
        rewrite count_note_app, count_note_one in IH. lia.
Qed.

(** The bracket issues balance the bracket characters: the number of
    unclosed-opener issues minus the number of unexpected-closer issues
    is the number of openers minus the number of closers in the text. *)
Theorem typos_bracket_balance (t : text) :
  (count_note note_unclosed (check_typos t) + List.length (filter (in_set closes) t) =
   count_note note_unexpected (check_typos t) + List.length (filter (in_set opens) t))%nat.
Proof.
  unfold check_typos.
  lazymatch goal with
  | |- context [bracket_loop 0 t [] ?i0] => set (iss0 := i0)
  end.
  pose proof (bracket_loop_count t 0 [] iss0) as Hc.
  pose proof (bracket_loop_issues t 0 [] iss0) as Hiss.
  destruct (bracket_loop 0 t [] iss0) as [stk iss]. cbn [fst snd List.length] in Hc, Hiss.
  assert (H0 : forall nt, nt <> note_ascii -> nt <> note_repeated -> count_note nt iss0 = 0%nat).
  { intros nt Ha Hr. apply count_note_zero. intros x Hx.
    apply in_app_or in Hx as [Hx|Hx].
    - apply in_map_iff in Hx as [[i c] [<- _]]. cbn [snd]. intro E. apply Ha. symmetry. exact E.
    - apply in_map_iff in Hx as [[i [n g]] [<- _]]. cbn [snd]. intro E. apply Hr. symmetry. exact E. }
  assert (Hu : count_note note_unclosed iss = 0%nat).
  { apply count_note_zero. intros x Hx E. destruct (Hiss x Hx) as [H|H].
    - apply in_app_or in H as [H|H].
      + apply in_map_iff in H as [[i c] [<- _]]. cbn [snd] in E. notes_neq.
      + apply in_map_iff in H as [[i [n g]] [<- _]]. cbn [snd] in E. notes_neq.
    - rewrite E in H. notes_neq. }
  assert (Hzw : forall nt, nt <> note_zw ->
            count_note nt (flat_map (fun zw => map (fun '(i, _) => (i, 1, [zw], note_zw))
                                                  (finditer (match_char zw) t)) zero_width) = 0%nat).
  { intros nt Hn. apply count_note_zero. intros x Hx.
    apply in_flat_map in Hx as [zw [_ Hz]]. apply in_map_iff in Hz as [[i u] [<- _]].
    cbn [snd]. intro E. apply Hn. symmetry. exact E. }
  assert (Hun : forall nt, count_note nt (unclosed_issues stk) =
                  if String.eqb nt note_unclosed then List.length stk else 0%nat).
  { intro nt. destruct (String.eqb_spec nt note_unclosed) as [->|Hne].
    - rewrite count_note_all; [unfold unclosed_issues; rewrite length_map, length_rev; reflexivity|].
      intros x Hx. unfold unclosed_issues in Hx. apply in_map_iff in Hx as [[ch pos] [<- _]].
      reflexivity.
    - apply count_note_zero. intros x Hx. unfold unclosed_issues in Hx.
      apply in_map_iff in Hx as [[ch pos] [<- _]]. cbn [snd]. intro E. apply Hne. symmetry. exact E. }
  rewrite !count_note_app, Hzw, Hzw, Hun, Hun, Hu by notes_neq.
  rewrite (H0 note_unexpected) in Hc by notes_neq.
  replace (String.eqb note_unclosed note_unclosed) with true by (symmetry; apply String.eqb_refl).
  replace (String.eqb note_unexpected note_unclosed) with false by reflexivity.
  lia.
Qed.

(** ** check_duplicate_footnotes *)

Lemma with_prefixes_snd {A} (pre l : list A) q x : In (q, x) (with_prefixes pre l) -> In x l.
Proof.
  revert pre; induction l as [|y l IH]; intros pre H; [destruct H|].
  destruct H as [E|H]; [injection E as _ ->; left; reflexivity|right; eapply IH; exact H].
Qed.

Lemma repeated_occurrences_in l x : In x (repeated_occurrences l) -> In x l.
Proof.
  unfold repeated_occurrences. intro H. apply in_map_iff in H as [[q y] [<- H]].
  apply filter_In in H as [H _]. exact (with_prefixes_snd _ _ _ _ H).
Qed.

Lemma bracket_num_finding (t : text) p op cl n g :
  0 <= p -> match_bracket_num op cl (skipn (Z.to_nat p) t) = Some (n, g) ->
  p + Z.of_nat n <= Z.of_nat (List.length t) /\ slice t p (Z.of_nat n) = op :: g ++ [cl] /\
  (1 <= List.length g <= 3)%nat /\ Forall (fun c => is_re_digit c = true) g.
Proof.
  intros Hp Hm. destruct (match_bracket_num_at _ _ _ _ _ Hm) as [Hf [Hn [Hl [Hg Hd]]]].
  rewrite length_skipn in Hl. unfold slice. rewrite Nat2Z.id.
  split; [lia|split; [exact Hf|split; [exact Hg|exact Hd]]].
Qed.

Lemma bracket_token_shape (t : text) p n k :
  In (p, n, k) (bracket_tokens t) ->
  0 <= p /\ p + n <= Z.of_nat (List.length t) /\
  exists op cl, In (op, cl) footnote_brackets /\ slice t p n = op :: k ++ [cl] /\
    (1 <= List.length k <= 3)%nat /\ Forall (fun c => is_re_digit c = true) k.
Proof.
  unfold bracket_tokens. intro H.
  apply in_map_iff in H as [[p' [n' k']] [Heq Hin]]. cbn [to_finding] in Heq.
  injection Heq as <- <- <-.
  destruct (finditer_at _ _ _ _ Hin) as [Hp [n0 Hm]].
  split; [exact Hp|]. unfold match_footnote in Hm.
  destruct (match_bracket_num 40 41 (skipn (Z.to_nat p') t)) as [[n2 g2]|] eqn:H1.
  { unfold match_with_len in Hm. injection Hm as <- <- <-.
    destruct (bracket_num_finding t p' _ _ _ _ Hp H1) as [Hb [Hs Hk]].
    split; [exact Hb|]. exists 40, 41. split; [left; reflexivity|split; [exact Hs|exact Hk]]. }
  destruct (match_bracket_num 65288 65289 (skipn (Z.to_nat p') t)) as [[n2 g2]|] eqn:H2.
  { unfold match_with_len in Hm. injection Hm as <- <- <-.
    destruct (bracket_num_finding t p' _ _ _ _ Hp H2) as [Hb [Hs Hk]].
    split; [exact Hb|]. exists 65288, 65289.
    split; [right; left; reflexivity|split; [exact Hs|exact Hk]]. }
  unfold match_with_len in Hm.
  destruct (match_bracket_num 91 93 (skipn (Z.to_nat p') t)) as [[n2 g2]|] eqn:H3;
    [|discriminate].
  injection Hm as <- <- <-.
  destruct (bracket_num_finding t p' _ _ _ _ Hp H3) as [Hb [Hs Hk]].
  split; [exact Hb|]. exists 91, 93.
  split; [right; right; left; reflexivity|split; [exact Hs|exact Hk]].
Qed.

(** ** The superscript pass finds exactly the maximal runs *)

Lemma span_exact (f : Z -> bool) : forall (l : text) n,
  (n <= List.length l)%nat -> Forall (fun c => f c = true) (firstn n l) ->
  (forall c, nth_error l n = Some c -> f c = false) -> span f l = n.
Proof.
  induction l as [|x l IH]; intros n Hn Hall Hstop.
  - simpl in Hn. assert (n = O) by lia. subst. reflexivity.
  - destruct n as [|n].
    + cbn [span]. rewrite (Hstop x eq_refl). reflexivity.
    + cbn [firstn] in Hall. inversion Hall as [|? ? Hx Hall']; subst.
      cbn [span]. rewrite Hx. f_equal. apply IH; [simpl in Hn; lia|exact Hall'|exact Hstop].
Qed.

Lemma match_superscript_shape s n a :
  match_superscript s = Some (n, a) ->
  (1 <= n)%nat /\ n = span in_supmap s /\ a = (n, py_str_nat (sup_value (firstn n s))).
Proof.
  unfold match_superscript. destruct (span in_supmap s) as [|j] eqn:Hj; [discriminate|].
  intro H. injection H as <- <-. split; [lia|split; reflexivity].
Qed.

Lemma match_superscript_pos s n a : match_superscript s = Some (n, a) -> (1 <= n)%nat.
Proof. intro H. exact (proj1 (match_superscript_shape s n a H)). Qed.

Lemma finditer_superscript_disjoint : forall s skip i,
  StronglySorted (fun x y => fst x + Z.of_nat (fst (snd x)) <= fst y)
    (finditer_from match_superscript skip i s).
Proof.
  induction s as [|c s IH]; intros skip i; cbn [finditer_from]; [constructor|].
  destruct skip as [|k]; [|apply IH].
  destruct (match_superscript (c :: s)) as [[n a]|] eqn:Hm; [|apply IH].
  destruct (match_superscript_shape _ _ _ Hm) as [Hn [_ ->]].
  constructor; [apply IH|].
  apply Forall_forall. intros [q a'] Hin. cbn [fst snd].
  pose proof (finditer_from_skip _ _ _ _ _ _ Hin). lia.
Qed.

Lemma sup_tokens_in t p n k :
  In (p, n, k) (superscript_tokens t) <->
  exists j, n = Z.of_nat j /\ In (p, (j, k)) (finditer match_superscript t).
Proof.
  unfold superscript_tokens. split.
  - intro H. apply in_map_iff in H as [[p' [j k']] [Heq Hin]]. cbn [to_finding] in Heq.
    injection Heq as <- <- <-. exists j. auto.
  - intros [j [-> Hin]]. apply in_map_iff. exists (p, (j, k)). auto.
Qed.

Lemma sup_match_at (t : text) q c :
  nth_error t q = Some c -> in_supmap c = true ->
  exists n a, match_superscript (skipn q t) = Some (n, a).
Proof.
  intros Hq Hc. destruct (nth_error_skipn_cons _ _ _ Hq) as [r Hr]. rewrite Hr.
  unfold match_superscript. cbn [span]. rewrite Hc. eexists _, _. reflexivity.
Qed.

Lemma sup_run_char (t : text) q n i :
  span in_supmap (skipn q t) = n -> (i < n)%nat ->
  exists c, nth_error t (q + i) = Some c /\ in_supmap c = true.
Proof.
  intros Hs Hi.
  pose proof (span_prefix in_supmap (skipn q t)) as Hall.
  pose proof (span_le in_supmap (skipn q t)) as Hle. rewrite Hs in Hall, Hle.
  destruct (nth_error (firstn n (skipn q t)) i) as [c|] eqn:Hc.
  - exists c. split.
    + rewrite nth_error_firstn in Hc.
      replace (Nat.ltb i n) with true in Hc by (symmetry; apply Nat.ltb_lt; exact Hi).
      rewrite nth_error_skipn in Hc. exact Hc.
    + rewrite Forall_forall in Hall. apply Hall. eapply nth_error_In. exact Hc.
  - apply nth_error_None in Hc. rewrite firstn_length_le in Hc by exact Hle. lia.
Qed.

(** The superscript tokens are exactly the maximal runs of superscript
    digits, each keyed by [str] of its base-10 value. *)
Lemma superscript_tokens_iff (t : text) p n k :
  In (p, n, k) (superscript_tokens t) <->
  sup_run t p n /\ k = py_str_nat (sup_value (slice t p n)).
Proof.
  rewrite sup_tokens_in. split.
  - intros [j [-> Hin]].
    destruct (finditer_at _ _ _ _ Hin) as [Hp [j0 Hm]].
    destruct (match_superscript_shape _ _ _ Hm) as [Hj0 [Hsp Ha]].
    injection Ha as Ej Hk. rewrite <- Ej in Hm, Hsp, Hk, Hj0. clear Ej.
    pose proof (span_le in_supmap (skipn (Z.to_nat p) t)) as Hle.
    pose proof (span_prefix in_supmap (skipn (Z.to_nat p) t)) as Hall.
    pose proof (span_stop in_supmap (skipn (Z.to_nat p) t)) as Hstop.
    rewrite <- Hsp in Hle, Hall, Hstop. rewrite length_skipn in Hle.
    unfold sup_run, slice. rewrite Nat2Z.id.
    split; [|exact Hk].
    split; [exact Hp|split; [lia|split; [lia|split; [exact Hall|split]]]].
    + intros c Hc. apply Hstop. rewrite nth_error_skipn.
      replace (Z.to_nat p + j)%nat with (Z.to_nat (p + Z.of_nat j)) by lia. exact Hc.
    + destruct (Z.eq_dec p 0) as [E|Hp0]; [left; exact E|right].
      intros c Hc. destruct (in_supmap c) eqn:Hcs; [exfalso|reflexivity].
      destruct (sup_match_at t (Z.to_nat (p - 1)) c Hc Hcs) as [n1 [a1 Hm1]].
      assert (Hk1 : (Z.to_nat (p - 1) < List.length t)%nat)
        by (apply nth_error_Some; congruence).
      destruct (finditer_from_complete match_superscript match_superscript_pos t O 0
                  (Z.to_nat (p - 1)) n1 a1 (Nat.le_0_l _) Hk1 Hm1)
        as [q [a' [n' [Hinq [Hq Hbq]]]]].
      rewrite Z.sub_0_r in Hq.
      destruct (match_superscript_shape _ _ _ Hq) as [Hn' [Hspq Ha']]. subst a'.
      pose proof (StronglySorted_pair _ _ _ _ (finditer_superscript_disjoint t O 0)
                    Hinq Hin) as Hord.
      cbn [fst snd] in Hord.
      destruct (finditer_at _ _ _ _ Hinq) as [Hq0 _].
      assert (Hend : q + Z.of_nat n' = p).
      { destruct Hord as [E|[E|E]]; [injection E as E1 _; lia|lia|lia]. }
      (* the run at q stops at p, yet the character at p is a superscript *)
      pose proof (span_stop in_supmap (skipn (Z.to_nat q) t)) as Hst. rewrite <- Hspq in Hst.
      destruct (sup_run_char t (Z.to_nat p) j 0) as [c0 [Hc0 Hc0s]];
        [symmetry; exact Hsp|lia|].
      assert (Hf := Hst c0). rewrite nth_error_skipn in Hf.
      replace (Z.to_nat q + n')%nat with (Z.to_nat p + 0)%nat in Hf by lia.
      rewrite (Hf Hc0) in Hc0s. discriminate.
  - intros [[Hp [Hn [Hb [Hall [Hstop Hleft]]]]] Hk].
    unfold slice in Hall.
    assert (Hsp : span in_supmap (skipn (Z.to_nat p) t) = Z.to_nat n).
    { apply span_exact; [rewrite length_skipn; lia|exact Hall|].
      intros c Hc. apply Hstop. rewrite nth_error_skipn in Hc.
      replace (Z.to_nat (p + n)) with (Z.to_nat p + Z.to_nat n)%nat by lia. exact Hc. }
    assert (Hm : match_superscript (skipn (Z.to_nat p) t) = Some (Z.to_nat n, (Z.to_nat n, k))).
    { destruct (Z.to_nat n) as [|N'] eqn:HN; [lia|].
      unfold match_superscript. rewrite Hsp, Hk. unfold slice. rewrite HN. reflexivity. }
    assert (Hk0 : (Z.to_nat p < List.length t)%nat) by lia.
    destruct (finditer_from_complete match_superscript match_superscript_pos t O 0
                (Z.to_nat p) _ _ (Nat.le_0_l _) Hk0 Hm) as [q [a' [n' [Hinq [Hq Hbq]]]]].
    rewrite Z.sub_0_r in Hq. destruct (finditer_at _ _ _ _ Hinq) as [Hq0 _].
    destruct (Z.eq_dec q p) as [->|Hqp].
    + rewrite Hm in Hq. injection Hq as <- <-.
      exists (Z.to_nat n). split; [lia|exact Hinq].
    + exfalso. destruct Hleft as [E|Hleft]; [lia|].
      destruct (match_superscript_shape _ _ _ Hq) as [_ [Hspq _]].
      destruct (sup_run_char t (Z.to_nat q) n' (Z.to_nat (p - 1) - Z.to_nat q))
        as [c [Hc Hcs]]; [symmetry; exact Hspq|lia|].
      replace (Z.to_nat q + (Z.to_nat (p - 1) - Z.to_nat q))%nat with (Z.to_nat (p - 1))
        in Hc by lia.
      rewrite (Hleft c Hc) in Hcs. discriminate.
Qed.

(** C5: the superscript pass finds exactly the maximal runs of
    superscript digits (no character of [supmap] just before or just
    after), each keyed by [str] of the run's base-10 value (so ⁰¹ keys
    as 1); the key table is shared with the bracket pass, so a
    superscript token whose key was seen in the bracket pass is a
    duplicate; a¹ b² c¹ gives one duplicate, keyed 1, and (12) ¹² reports
    the superscript ¹² as a duplicate of (12). *)
Theorem C5_superscript_keys :
  superscript_tokens [120; 8304; 185] = [(1, 2, [49])] /\
  check_duplicate_footnotes [97; 185; 32; 98; 178; 32; 99; 185] = [(7, 1, [49])] /\
  check_duplicate_footnotes [40; 49; 50; 41; 32; 185; 178] = [(5, 2, [49; 50])] /\
  (forall t p n k, In (p, n, k) (superscript_tokens t) <->
     sup_run t p n /\ k = py_str_nat (sup_value (slice t p n))) /\
  (forall t tok b, In tok (superscript_tokens t) -> In b (bracket_tokens t) ->
     fn_key b = fn_key tok -> In tok (check_duplicate_footnotes t)).
Proof.
  split; [reflexivity|split; [reflexivity|split; [reflexivity|split]]].
  - apply superscript_tokens_iff.
  - intros t tok b Htok Hb Hk. rewrite footnotes_repeated.
    exact (repeated_occurrences_later _ _ tok b Htok Hb Hk).
Qed.

Lemma C5_superscript_keys_witness :
  In (5, 2, [49; 50]) (check_duplicate_footnotes [40; 49; 50; 41; 32; 185; 178]).
Proof.
  apply (proj2 (proj2 (proj2 (proj2 C5_superscript_keys)))
           [40; 49; 50; 41; 32; 185; 178] (5, 2, [49; 50]) (0, 4, [49; 50]));
    vm_compute; auto.
Defined.

Lemma superscript_token_bounds (t : text) p n k :
  In (p, n, k) (superscript_tokens t) -> 0 <= p /\ 1 <= n /\ p + n <= Z.of_nat (List.length t).
Proof.
  unfold superscript_tokens. intro H.
  apply in_map_iff in H as [[p' [n' k']] [Heq Hin]]. cbn [to_finding] in Heq.
  injection Heq as <- <- <-.
  destruct (finditer_at _ _ _ _ Hin) as [Hp [n0 Hm]].
  unfold match_superscript in Hm.
  pose proof (span_le in_supmap (skipn (Z.to_nat p') t)) as Hle.
  destruct (span in_supmap (skipn (Z.to_nat p') t)) as [|j]; [discriminate|].
  injection Hm as <- <- _. rewrite length_skipn in Hle. lia.
Qed.

(** Every reported footnote duplicate lies inside the text and is either
    a bracketed reference [(n)], [（n）] or [[n]] of one to three decimal
    digits keyed by those digits, or a maximal run of superscript digits
    keyed by the decimal string of its value. *)
Theorem footnote_duplicates_shape (t : text) (p n : Z) (k : text)
  (Hin : In (p, n, k) (check_duplicate_footnotes t)) :
  0 <= p /\ 1 <= n /\ p + n <= Z.of_nat (List.length t) /\
  ((exists op cl, In (op, cl) footnote_brackets /\ slice t p n = op :: k ++ [cl] /\
      (1 <= List.length k <= 3)%nat /\ Forall (fun c => is_re_digit c = true) k) \/
   (sup_run t p n /\ k = py_str_nat (sup_value (slice t p n)))).
Proof.
  rewrite footnotes_repeated in Hin. apply repeated_occurrences_in, in_app_or in Hin as [H|H].
  - destruct (bracket_token_shape t p n k H) as [Hp [Hb [op [cl [Hoc [Hs Hk]]]]]].
    assert (Hlen : List.length (slice t p n) = Z.to_nat n).
    { unfold slice. apply firstn_length_le. rewrite length_skipn. lia. }
    rewrite Hs in Hlen. cbn [List.length] in Hlen. rewrite length_app in Hlen.
    split; [exact Hp|split; [cbn [List.length] in Hlen; lia|split; [exact Hb|]]].
    left. exists op, cl. auto.
  - destruct (superscript_token_bounds t p n k H) as [Hp [Hn Hb]].
    split; [exact Hp|split; [exact Hn|split; [exact Hb|]]].
    right. apply superscript_tokens_iff. exact H.
Qed.

Lemma footnote_duplicates_shape_witness :
  0 <= 17 /\ 1 <= 3 /\ 17 + 3 <= 20 /\
  ((exists op cl, In (op, cl) footnote_brackets /\
      slice [102;111;111;40;49;41;32;98;97;114;40;50;41;32;98;97;122;40;49;41] 17 3 =
        op :: [49] ++ [cl] /\
      (1 <= List.length [49] <= 3)%nat /\ Forall (fun c => is_re_digit c = true) [49]) \/
   (sup_run [102;111;111;40;49;41;32;98;97;114;40;50;41;32;98;97;122;40;49;41] 17 3 /\
    [49] = py_str_nat (sup_value (slice [102;111;111;40;49;41;32;98;97;114;40;50;41;32;98;97;122;40;49;41] 17 3)))).
Proof.
  apply (footnote_duplicates_shape [102;111;111;40;49;41;32;98;97;114;40;50;41;32;98;97;122;40;49;41]
           17 3 [49]).
  vm_compute. left. reflexivity.
Defined.

(** ** str.strip and str.split *)

Lemma lstrip_spec s : exists a, s = a ++ lstrip s /\ Forall (fun c => is_py_space c = true) a /\
  forall c, hd_error (lstrip s) = Some c -> is_py_space c = false.
Proof.
  induction s as [|c s IH]; [exists []; split; [reflexivity|split; [constructor|discriminate]]|].
  cbn [lstrip]. destruct (is_py_space c) eqn:Hc.
  - destruct IH as [a [Ha [Hsp Hhd]]]. exists (c :: a).
    split; [rewrite Ha at 1; reflexivity|split; [constructor; assumption|exact Hhd]].
  - exists []. split; [reflexivity|split; [constructor|]].
    intros c' H. injection H as <-. exact Hc.
Qed.

Lemma lstrip_id s : (forall c, hd_error s = Some c -> is_py_space c = false) -> lstrip s = s.
Proof.
  destruct s as [|c s]; intro H; [reflexivity|]. cbn [lstrip].
  rewrite (H c eq_refl). reflexivity.
Qed.

Lemma strip_facts (s : text) :
  (exists a b, s = a ++ strip s ++ b /\ Forall (fun c => is_py_space c = true) a /\
     Forall (fun c => is_py_space c = true) b) /\
  (forall c, hd_error (strip s) = Some c -> is_py_space c = false) /\
  (forall c, hd_error (rev (strip s)) = Some c -> is_py_space c = false) /\
  strip (strip s) = strip s.
Proof.
  destruct (lstrip_spec s) as [a [Ha [Hsa Hhd]]].
  set (u := lstrip s) in *.
  destruct (lstrip_spec (rev u)) as [b [Hb [Hsb Hhdb]]].
  assert (Hu : u = strip s ++ rev b).
  { unfold strip. fold u. rewrite <- rev_app_distr, <- Hb, rev_involutive. reflexivity. }
  assert (Hlast : forall c, hd_error (rev (strip s)) = Some c -> is_py_space c = false).
  { unfold strip. fold u. rewrite rev_involutive. exact Hhdb. }
  assert (Hfirst : forall c, hd_error (strip s) = Some c -> is_py_space c = false).
  { intros c Hc. apply Hhd. rewrite Hu. destruct (strip s); [discriminate|exact Hc]. }
  split; [|split; [exact Hfirst|split; [exact Hlast|]]].
  - exists a, (rev b). split; [rewrite Ha at 1; rewrite Hu; reflexivity|].
    split; [exact Hsa|apply Forall_rev, Hsb].
  - unfold strip at 1. rewrite (lstrip_id _ Hfirst), (lstrip_id _ Hlast), rev_involutive.
    reflexivity.
Qed.

(** [s.strip()] removes exactly a whitespace prefix and a whitespace
    suffix: what remains neither starts nor ends with whitespace, and
    stripping again changes nothing. *)
Theorem strip_spec (s : text) :
  (exists a b, s = a ++ strip s ++ b /\ Forall (fun c => is_py_space c = true) a /\
     Forall (fun c => is_py_space c = true) b) /\
  (forall c, hd_error (strip s) = Some c -> is_py_space c = false) /\
  (forall c, hd_error (rev (strip s)) = Some c -> is_py_space c = false) /\
  strip (strip s) = strip s.
Proof. exact (strip_facts s). Qed.

Lemma split_on_nonempty sep s : split_on sep s <> [].
Proof.
  destruct s as [|c s]; cbn [split_on]; [discriminate|].
  destruct (c =? sep); [discriminate|]. destruct (split_on sep s); discriminate.
Qed.

Lemma py_join_cons_head sep (c : Z) (p : text) (ps : list text) : py_join sep ((c :: p) :: ps) = c :: py_join sep (p :: ps).
Proof. destruct ps; reflexivity. Qed.

Lemma split_on_facts (sep : Z) (s : text) :
  py_join sep (split_on sep s) = s /\
  Forall (fun piece => ~ In sep piece) (split_on sep s) /\
  List.length (split_on sep s) = S (count_occ Z.eq_dec s sep).
Proof.
  induction s as [|c s [IHj [IHf IHl]]]; [split; [reflexivity|split; [repeat constructor; tauto|reflexivity]]|].
  cbn [split_on count_occ]. destruct (Z.eqb_spec c sep) as [->|Hne].
  - destruct (Z.eq_dec sep sep) as [_|]; [|contradiction].
    split; [|split; [constructor; [tauto|exact IHf]|cbn [List.length]; rewrite IHl; reflexivity]].
    pose proof (split_on_nonempty sep s) as Hn.
    destruct (split_on sep s) as [|p ps]; [contradiction|].
    change ([] ++ sep :: py_join sep (p :: ps) = sep :: s). rewrite IHj. reflexivity.
  - destruct (Z.eq_dec c sep) as [E|_]; [contradiction|].
    pose proof (split_on_nonempty sep s) as Hn.
    destruct (split_on sep s) as [|p ps]; [contradiction|].
    split; [rewrite py_join_cons_head, IHj; reflexivity|split; [|cbn [List.length] in *; exact IHl]].
    inversion IHf as [|? ? Hp Hps]; subst. constructor; [|exact Hps].
    intros [E|E]; [exact (Hne E)|exact (Hp E)].
Qed.

(** [s.split(sep)] cuts the text at every separator: joining the pieces
    with the separator gives the text back, no piece contains the
    separator, and there is one piece more than there are separators. *)
Theorem split_on_join (sep : Z) (s : text) :
  py_join sep (split_on sep s) = s /\
  Forall (fun piece => ~ In sep piece) (split_on sep s) /\
  List.length (split_on sep s) = S (count_occ Z.eq_dec s sep).
Proof. exact (split_on_facts sep s). Qed.

(** Each variant of a glossary row is non-empty, contains no [|] and is
    already stripped. *)
Theorem row_variants_shape (row : glossary_row) (v : text)
  (Hv : In v (row_variants row)) :
  v <> [] /\ ~ In 124 v /\ strip v = v.
Proof.
  split; [exact (row_variants_nonempty row v Hv)|].
  unfold row_variants in Hv. apply in_map_iff in Hv as [w [<- Hw]].
  apply filter_In in Hw as [Hw _].
  destruct (split_on_facts 124 (strip (zh_variants row))) as [_ [Hf _]].
  rewrite Forall_forall in Hf. specialize (Hf w Hw).
  destruct (strip_facts w) as [[a [b [Hab _]]] [_ [_ Hid]]].
  split; [|exact Hid].
  intro H. apply Hf. rewrite Hab. apply in_or_app. right. apply in_or_app. left. exact H.
Qed.

Lemma row_variants_shape_witness :
  [30002] <> [] /\ ~ In 124 [30002] /\ strip [30002] = [30002].
Proof.
  apply (row_variants_shape {| zh_pref := []; zh_variants := [32; 30002; 32; 124; 20057] |}).
  vm_compute. left. reflexivity.
Defined.

(** ** target.count *)

Lemma match_literal_pos term (Hne : term <> []) s n u :
  match_literal term s = Some (n, u) -> (1 <= n)%nat.
Proof.
  unfold match_literal. destruct (is_prefix term s); [|discriminate].
  intro H; injection H as <- _. destruct term; [contradiction|simpl; lia].
Qed.

Lemma is_prefix_length p s : is_prefix p s = true -> (List.length p <= List.length s)%nat.
Proof.
  revert s; induction p as [|x p IH]; intros [|y s] H; simpl in *; try lia; try discriminate.
  apply andb_true_iff in H as [_ H]. specialize (IH s H). lia.
Qed.

(** [target.count(term)] is positive exactly when [term] occurs in the
    target. *)
Theorem py_count_pos_iff (target term : text) (Hne : term <> []) :
  0 < py_count target term <-> exists k, is_prefix term (skipn k target) = true.
Proof.
  unfold py_count. split.
  - intro H. destruct (finditer (match_literal term) target) as [|[p u] l] eqn:Hf;
      [simpl in H; lia|].
    assert (Hin : In (p, u) (finditer (match_literal term) target)) by (rewrite Hf; left; reflexivity).
    destruct (finditer_at _ _ _ _ Hin) as [_ [n Hm]].
    exists (Z.to_nat p). unfold match_literal in Hm.
    destruct (is_prefix term (skipn (Z.to_nat p) target)); [reflexivity|discriminate].
  - intros [k Hk].
    assert (Hm : match_literal term (skipn k target) = Some (List.length term, tt))
      by (unfold match_literal; rewrite Hk; reflexivity).
    assert (Hlt : (k < List.length target)%nat).
    { pose proof (is_prefix_length _ _ Hk) as Hl. rewrite length_skipn in Hl.
      destruct term; [contradiction|simpl in Hl; lia]. }
    destruct (finditer_from_complete _ (match_literal_pos term Hne) target O 0 k _ _
                (Nat.le_0_l k) Hlt Hm) as [q [a [n' [Hin _]]]].
    unfold finditer. destruct (finditer_from (match_literal term) O 0 target) as [|x l];
      [destruct Hin|].
    simpl. lia.
Qed.

Lemma py_count_pos_iff_witness :
  [97; 97] <> [] /\
  (0 < py_count [97; 97; 97] [97; 97] <-> exists k, is_prefix [97; 97] (skipn k [97; 97; 97]) = true).
Proof.
  assert (H : [97; 97] <> []) by discriminate.
  split; [exact H|exact (py_count_pos_iff [97; 97; 97] [97; 97] H)].
Defined.

(** ** check_terminology_inconsistency *)

Lemma dict_set_keys_inv k v d k' : In k' (map fst (dict_set k v d)) -> k' = k \/ In k' (map fst d).
Proof.
  induction d as [|[a b] d IH]; cbn [dict_set map fst]; [intros [<-|[]]; left; reflexivity|].
  destruct (text_eqb k a) eqn:E; cbn [map fst].
  - intros [<-|H]; right; [left; reflexivity|right; exact H].
  - intros [<-|H]; [right; left; reflexivity|].
    destruct (IH H) as [H'|H']; [left; exact H'|right; right; exact H'].
Qed.

Lemma dict_set_nodup k v d : NoDup (map fst d) -> NoDup (map fst (dict_set k v d)).
Proof.
  induction d as [|[a b] d IH]; cbn [dict_set map fst]; intro Hd.
  - constructor; [intros []|constructor].
  - inversion Hd as [|? ? Ha Hd']; subst.
    destruct (text_eqb k a) eqn:E; cbn [map fst]; [exact Hd|].
    constructor; [|apply IH, Hd'].
    intro H. destruct (dict_set_keys_inv _ _ _ _ H) as [->|H']; [|contradiction].
    rewrite (proj2 (text_eqb_eq k k) eq_refl) in E. discriminate.
Qed.

Lemma fold_add_terms_keys (F : text -> Z) (all : list text) : forall terms d,
  incl terms all -> NoDup (map fst d) ->
  (forall k, In k (map fst d) -> k <> [] /\ In k all) ->
  NoDup (map fst (fold_left (add_term F) terms d)) /\
  (forall k, In k (map fst (fold_left (add_term F) terms d)) -> k <> [] /\ In k all).
Proof.
  induction terms as [|x terms IH]; intros d Hincl Hnd Hk; [split; assumption|].
  cbn [fold_left]. apply IH; [intros y Hy; apply Hincl; right; exact Hy| |].
  - destruct x; [exact Hnd|apply dict_set_nodup, Hnd].
  - intros k Hin. destruct x as [|c x]; [apply Hk, Hin|].
    destruct (dict_set_keys_inv _ _ _ _ Hin) as [->|H]; [|apply Hk, H].
    split; [discriminate|apply Hincl; left; reflexivity].
Qed.

Lemma NoDup_map_fst_filter {B} (f : text * B -> bool) (l : list (text * B)) :
  NoDup (map fst l) -> NoDup (map fst (filter f l)).
Proof.
  induction l as [|x l IH]; intro H; [constructor|].
  inversion H as [|? ? Hx Hl]; subst. cbn [filter].
  destruct (f x); [|apply IH, Hl]. cbn [map]. constructor; [|apply IH, Hl].
  intro Hin. apply Hx. apply in_map_iff in Hin as [y [<- Hy]].
  apply filter_In in Hy as [Hy _]. apply in_map, Hy.
Qed.

Lemma check_row_cases target row :
  (strip (zh_pref row) = [] /\ row_variants row = [] /\ check_row target row = []) \/
  ((strip (zh_pref row) <> [] \/ row_variants row <> []) /\
   check_row target row = row_result target row).
Proof.
  unfold check_row, row_result. cbv zeta.
  destruct (strip (zh_pref row)), (row_variants row);
    [left; auto|right; split; [(left; discriminate) || (right; discriminate)|reflexivity]..].
Qed.

Lemma row_result_shape target row inc :
  In inc (row_result target row) ->
  preferred inc = strip (zh_pref row) /\ (2 <= List.length (found inc))%nat /\
  NoDup (map fst (found inc)) /\
  forall k v, In (k, v) (found inc) ->
    k <> [] /\ In k (strip (zh_pref row) :: row_variants row) /\
    v = py_count target k /\ 0 < v.
Proof.
  unfold row_result. cbv zeta.
  set (terms := strip (zh_pref row) :: row_variants row).
  set (used := fold_left (add_term (py_count target)) terms []).
  destruct (Nat.ltb_spec 1 (List.length (filter (fun '(_, v) => 0 <? v) used))) as [Hl|_];
    [|intros []].
  intros [<-|[]]. cbn [preferred found].
  destruct (fold_add_terms_keys (py_count target) terms terms [] (incl_refl _) (NoDup_nil _)
              (fun k H => match H with end)) as [Hnd Hkeys].
  destruct (fold_add_terms (py_count target) terms [] (fun k v H => match H with end)) as [Hok _].
  fold used in Hnd, Hkeys, Hok.
  split; [reflexivity|split; [lia|split; [apply NoDup_map_fst_filter, Hnd|]]].
  intros k v Hin. apply filter_In in Hin as [Hin Hv].
  destruct (Hkeys k (in_map fst _ _ Hin)) as [Hk Hkt].
  split; [exact Hk|split; [exact Hkt|split; [exact (Hok k v Hin)|apply Z.ltb_lt, Hv]]].
Qed.

(** Each terminology finding comes from one glossary row: its preferred
    term is the row's stripped preferred term, and it lists at least two
    distinct non-empty terms of the row (the preferred term or a variant),
    each with its positive count in the target. *)
Theorem terminology_finding_shape (target : text) (glossary_df : list glossary_row)
  (inc : inconsistency) (Hin : In inc (check_terminology_inconsistency target glossary_df)) :
  exists row, In row glossary_df /\ preferred inc = strip (zh_pref row) /\
    (2 <= List.length (found inc))%nat /\ NoDup (map fst (found inc)) /\
    forall k v, In (k, v) (found inc) ->
      k <> [] /\ In k (strip (zh_pref row) :: row_variants row) /\
      v = py_count target k /\ 0 < v.
Proof.
  unfold check_terminology_inconsistency in Hin.
  destruct glossary_df as [|r0 rs]; [destruct Hin|].
  apply in_flat_map in Hin as [row [Hrow Hin]]. exists row. split; [exact Hrow|].
  destruct (check_row_cases target row) as [[_ [_ E]]|[_ E]]; rewrite E in Hin;
    [destruct Hin|exact (row_result_shape _ _ _ Hin)].
Qed.

Lemma terminology_finding_shape_witness :
  exists row, In row [{| zh_pref := [22996;35351]; zh_variants := [21463;35351] |}] /\
    preferred {| preferred := [22996;35351]; found := [([22996;35351], 2); ([21463;35351], 1)] |} =
      strip (zh_pref row) /\
    le 2 (List.length [([22996;35351], 2); ([21463;35351], 1)]) /\
    NoDup (map fst [([22996;35351], 2); ([21463;35351], 1)]) /\
    forall k v, In (k, v) [([22996;35351], 2); ([21463;35351], 1)] ->
      k <> [] /\ In k (strip (zh_pref row) :: row_variants row) /\
      v = py_count [22996;35351;21463;35351;22996;35351] k /\ 0 < v.
Proof.
  apply (terminology_finding_shape [22996;35351;21463;35351;22996;35351]
           [{| zh_pref := [22996;35351]; zh_variants := [21463;35351] |}]
           {| preferred := [22996;35351]; found := [([22996;35351], 2); ([21463;35351], 1)] |}).
  vm_compute. left. reflexivity.
Defined.

(** A row yields a finding exactly when at least two distinct non-empty
    terms among its stripped preferred term and its variants occur in the
    target. *)
Theorem terminology_row_reported_iff (target : text) (row : glossary_row) :
  check_terminology_inconsistency target [row] <> [] <->
  exists k1 k2, k1 <> k2 /\ In k1 (strip (zh_pref row) :: row_variants row) /\
    In k2 (strip (zh_pref row) :: row_variants row) /\ k1 <> [] /\ k2 <> [] /\
    0 < py_count target k1 /\ 0 < py_count target k2.
Proof.
  unfold check_terminology_inconsistency. cbn [flat_map]. rewrite app_nil_r.
  split.
  - intro Hne.
    destruct (check_row_cases target row) as [[_ [_ E]]|[_ E]]; [contradiction|].
    rewrite E in Hne.
    destruct (row_result target row) as [|inc rest] eqn:Er; [contradiction|].
    assert (Hin : In inc (row_result target row)) by (rewrite Er; left; reflexivity).
    destruct (row_result_shape _ _ _ Hin) as [_ [Hl [Hnd Hk]]].
    destruct (found inc) as [|[k1 v1] [|[k2 v2] fs]]; cbn [List.length] in Hl; [lia|lia|].
    inversion Hnd as [|? ? Hn1 _]; subst.
    destruct (Hk k1 v1 (or_introl eq_refl)) as [Hk1 [Ht1 [Hv1 Hp1]]].
    destruct (Hk k2 v2 (or_intror (or_introl eq_refl))) as [Hk2 [Ht2 [Hv2 Hp2]]].
    exists k1, k2. split; [intro E12; apply Hn1; left; symmetry; exact E12|].
    subst v1 v2. repeat split; assumption.
  - intros [k1 [k2 [Hne [H1 [H2 [Hk1 [Hk2 [Hc1 Hc2]]]]]]]].
    destruct (check_row_cases target row) as [[Hp [Hv _]]|[_ E]].
    + exfalso. rewrite Hp, Hv in H1. destruct H1 as [<-|[]]. apply Hk1. reflexivity.
    + rewrite E. unfold row_result. cbv zeta.
      set (terms := strip (zh_pref row) :: row_variants row) in *.
      destruct (fold_add_terms (py_count target) terms [] (fun k v H => match H with end))
        as [Hok Hkeys].
      set (used := fold_left (add_term (py_count target)) terms []) in *.
      assert (Hin : forall k, In k terms -> k <> [] -> 0 < py_count target k ->
                In (k, py_count target k) (filter (fun '(_, c) => 0 <? c) used)).
      { intros k Hk Hkn Hc. apply filter_In. split; [|apply Z.ltb_lt, Hc].
        pose proof (Hkeys k Hk Hkn) as Hkk. apply in_map_iff in Hkk as [[k' c] [Hk' Hkc]]. cbn [fst] in Hk'. subst k'.
        rewrite <- (Hok _ _ Hkc). exact Hkc. }
      assert (Hlen : Nat.ltb 1 (List.length (filter (fun '(_, c) => 0 <? c) used)) = true).
      { apply Nat.ltb_lt. eapply two_distinct_length;
          [exact (Hin k1 H1 Hk1 Hc1)|exact (Hin k2 H2 Hk2 Hc2)|].
        intro E12. injection E12 as E12 _. contradiction. }
      rewrite Hlen. discriminate.
Qed.

(** ** _auto_map_columns *)

Lemma text_eqb_refl a : text_eqb a a = true.
Proof. apply text_eqb_eq. reflexivity. Qed.

Lemma tdict_get_set k k' v d :
  tdict_get k (tdict_set k' v d) = if text_eqb k k' then Some v else tdict_get k d.
Proof.
  induction d as [|[a b] d IH]; cbn [tdict_set tdict_get]; [reflexivity|].
  destruct (text_eqb k' a) eqn:Ea; cbn [tdict_get].
  - apply text_eqb_eq in Ea. subst a. destruct (text_eqb k k'); reflexivity.
  - rewrite IH. destruct (text_eqb k a) eqn:Eka, (text_eqb k k') eqn:Ekk; try reflexivity.
    apply text_eqb_eq in Eka, Ekk. subst. rewrite text_eqb_refl in Ea. discriminate.
Qed.

Lemma find_app {A} (f : A -> bool) l1 l2 :
  find f (l1 ++ l2) = match find f l1 with Some x => Some x | None => find f l2 end.
Proof. induction l1 as [|x l1 IH]; cbn; [reflexivity|]. destruct (f x); [reflexivity|exact IH]. Qed.

Lemma lower_columns_get lower cols : forall d k,
  tdict_get k (fold_left (fun d c => tdict_set (lower c) c d) cols d) =
  match find (fun c => text_eqb (lower c) k) (rev cols) with
  | Some c => Some c
  | None => tdict_get k d
  end.
Proof.
  induction cols as [|c cols IH]; intros d k; [reflexivity|].
  cbn [fold_left rev]. rewrite IH, find_app, tdict_get_set. cbn [find].
  rewrite text_eqb_sym. destruct (find _ (rev cols)); [reflexivity|].
  destruct (text_eqb (lower c) k); reflexivity.
Qed.

Lemma find_none_iff {A} (f : A -> bool) l : find f l = None <-> existsb f l = false.
Proof.
  induction l as [|x l IH]; cbn; [tauto|]. destruct (f x); [split; discriminate|exact IH].
Qed.

Lemma existsb_rev {A} (f : A -> bool) l : existsb f (rev l) = existsb f l.
Proof.
  induction l as [|x l IH]; cbn; [reflexivity|].
  rewrite existsb_app, IH. cbn. rewrite orb_false_r, orb_comm. reflexivity.
Qed.

(** [pick] over [lc = {c.lower(): c for c in df.columns}] returns, for
    the first key of the list that is the lowercased name of some column,
    the last column with that lowercased name (a later column overwrites
    an earlier one in [lc]); it returns [None] when no key matches. *)
Theorem pick_lower_columns (lower : text -> text) (cols keys : list text) :
  pick (lower_columns lower cols) keys =
  match find (fun k => existsb (fun c => text_eqb (lower c) k) cols) keys with
  | Some k => find (fun c => text_eqb (lower c) k) (rev cols)
  | None => None
  end.
Proof.
  induction keys as [|k keys IH]; [reflexivity|].
  cbn [pick find]. unfold lower_columns. rewrite lower_columns_get. cbn [tdict_get].
  destruct (existsb (fun c => text_eqb (lower c) k) cols) eqn:E.
  - destruct (find (fun c => text_eqb (lower c) k) (rev cols)) eqn:F; [reflexivity|].
    apply find_none_iff in F. rewrite existsb_rev, E in F. discriminate.
  - rewrite <- existsb_rev in E. apply find_none_iff in E. rewrite E. exact IH.
Qed.

Lemma find_some_in {A} (f : A -> bool) l x : find f l = Some x -> In x l /\ f x = true.
Proof.
  induction l as [|y l IH]; cbn; [discriminate|].
  destruct (f y) eqn:Fy; [intro H; injection H as <-; split; [left; reflexivity|exact Fy]|].
  intro H. destruct (IH H) as [H1 H2]. split; [right; exact H1|exact H2].
Qed.

Lemma pick_sound lower cols keys c :
  pick (lower_columns lower cols) keys = Some c -> In c cols /\ In (lower c) keys.
Proof.
  induction keys as [|k keys IH]; cbn [pick]; [discriminate|].
  unfold lower_columns at 1. rewrite lower_columns_get. cbn [tdict_get].
  destruct (find (fun c => text_eqb (lower c) k) (rev cols)) as [c'|] eqn:F.
  - intro H. injection H as <-. destruct (find_some_in _ _ _ F) as [Hin Hk].
    apply text_eqb_eq in Hk. split; [apply in_rev, Hin|left; symmetry; exact Hk].
  - intro H. destruct (IH H) as [H1 H2]. split; [exact H1|right; exact H2].
Qed.

(** The three columns found by [_auto_map_columns] are actual columns of
    the frame whose lowercased names are among the accepted names of the
    English term, the preferred term and the variants respectively. *)
Theorem auto_map_columns_sound (lower : text -> text) (cols : list text)
  (en zp zv : option text) (H : auto_map_columns lower cols = (en, zp, zv)) :
  (forall c, en = Some c -> In c cols /\ In (lower c) en_keys) /\
  (forall c, zp = Some c -> In c cols /\ In (lower c) zh_pref_keys) /\
  (forall c, zv = Some c -> In c cols /\ In (lower c) zh_var_keys).
Proof.
  unfold auto_map_columns in H.
  pose proof (f_equal (fun x => fst (fst x)) H) as H1.
  pose proof (f_equal (fun x => snd (fst x)) H) as H2.
  pose proof (f_equal snd H) as H3. cbn [fst snd] in H1, H2, H3.
  subst en zp zv. split; [|split]; intros c Hc; exact (pick_sound _ _ _ _ Hc).
Qed.

Lemma auto_map_columns_sound_witness :
  (forall c, Some (string_codes "English") = Some c ->
     In c [string_codes "English"; string_codes "preferred"] /\
     In (map (fun x => if (65 <=? x) && (x <=? 90) then x + 32 else x) c) en_keys) /\
  (forall c, Some (string_codes "preferred") = Some c ->
     In c [string_codes "English"; string_codes "preferred"] /\
     In (map (fun x => if (65 <=? x) && (x <=? 90) then x + 32 else x) c) zh_pref_keys) /\
  (forall c, (None : option text) = Some c ->
     In c [string_codes "English"; string_codes "preferred"] /\
     In (map (fun x => if (65 <=? x) && (x <=? 90) then x + 32 else x) c) zh_var_keys).
Proof.
  apply (auto_map_columns_sound (map (fun x => if (65 <=? x) && (x <=? 90) then x + 32 else x))
           [string_codes "English"; string_codes "preferred"]).
  vm_compute. reflexivity.
Defined.

(** ** context_df *)

Lemma firstn_add {A} a b (l : list A) : firstn (a + b) l = firstn a l ++ firstn b (skipn a l).
Proof.
  revert l; induction a as [|a IH]; intros [|x l]; cbn; try reflexivity.
  - rewrite firstn_nil. reflexivity.
  - rewrite IH. reflexivity.
Qed.

(** The snippet of a span inside the text shows the whole span, line
    feeds replaced. *)
Lemma context_snippet_window (t : text) p n :
  0 <= p -> 0 <= n -> p + n <= Z.of_nat (List.length t) ->
  exists a b, context_snippet t p n = a ++ replace_newline (slice t p n) ++ b.
Proof.
  intros Hp Hn Hb. unfold context_snippet, context_snippet_pad, py_slice, slice_bound.
  set (L := Z.of_nat (List.length t)) in *.
  set (s := Z.max 0 (p - 32)). set (e := Z.min L (p + n + 32)).
  assert (Hs : 0 <= s <= p) by lia. assert (He : p + n <= e <= L) by lia.
  replace (s <? 0) with false by (symmetry; apply Z.ltb_ge; lia).
  replace (e <? 0) with false by (symmetry; apply Z.ltb_ge; lia).
  replace (Z.min s L) with s by lia. replace (Z.min e L) with e by lia.
  replace (Z.to_nat (e - s)) with (Z.to_nat (p - s) + (Z.to_nat n + Z.to_nat (e - p - n)))%nat
    by lia.
  rewrite firstn_add, firstn_add, skipn_skipn, skipn_skipn.
  replace (Z.to_nat (p - s) + Z.to_nat s)%nat with (Z.to_nat p) by lia.
  unfold replace_newline. rewrite !map_app.
  eexists _, _. unfold slice. reflexivity.
Qed.

Lemma footnote_dup_bounds (t : text) p n k :
  In (p, n, k) (check_duplicate_footnotes t) ->
  0 <= p /\ 1 <= n /\ p + n <= Z.of_nat (List.length t).
Proof.
  rewrite footnotes_repeated. intro Hin.
  apply repeated_occurrences_in, in_app_or in Hin as [H|H];
    [|exact (superscript_token_bounds t p n k H)].
  destruct (bracket_token_shape t p n k H) as [Hp [Hb [op [cl [_ [Hs _]]]]]].
  assert (Hlen : List.length (slice t p n) = Z.to_nat n).
  { unfold slice. apply firstn_length_le. rewrite length_skipn. lia. }
  rewrite Hs in Hlen. cbn [List.length] in Hlen. lia.
Qed.

(** Every row of the three span-based tables (extra spaces, typography,
    duplicated footnotes) describes a non-empty span inside the text, and
    its context column shows the whole flagged span, line feeds replaced
    by spaces. *)
Theorem report_rows_show_span (t : text) (row : report_row)
  (Hin : In row (df_spaces t ++ df_typos t ++ df_foot t)) :
  0 <= r_start row < r_end row /\ r_end row <= Z.of_nat (List.length t) /\
  exists a b, r_context row =
    a ++ replace_newline (slice t (r_start row) (r_end row - r_start row)) ++ b.
Proof.
  assert (Hgen : forall label p n tok note,
            0 <= p -> 1 <= n -> p + n <= Z.of_nat (List.length t) ->
            forall it, (it = Item3 p n tok \/ it = Item4 p n tok note) ->
            row = context_row label t it ->
            0 <= r_start row < r_end row /\ r_end row <= Z.of_nat (List.length t) /\
            exists a b, r_context row =
              a ++ replace_newline (slice t (r_start row) (r_end row - r_start row)) ++ b).
  { intros label p n tok note Hp Hn Hb it Hit ->.
    assert (E : r_start (context_row label t it) = p /\ r_end (context_row label t it) = p + n /\
                r_context (context_row label t it) = context_snippet t p n)
      by (destruct Hit as [->| ->]; repeat split).
    destruct E as [-> [-> ->]]. replace (p + n - p) with n by lia.
    split; [lia|split; [exact Hb|]]. apply context_snippet_window; lia. }
  apply in_app_or in Hin as [H|H]; [|apply in_app_or in H as [H|H]].
  - unfold df_spaces, context_df in H. rewrite map_map in H.
    apply in_map_iff in H as [[[p n] g] [<- Hf]].
    destruct (extra_spaces_bounds t p n g Hf) as [Hp [Hn [Hb _]]].
    apply (Hgen "Extra space"%string p n g EmptyString Hp ltac:(lia) Hb (Item3 p n g) (or_introl eq_refl)).
    reflexivity.
  - unfold df_typos, context_df in H. rewrite map_map in H.
    apply in_map_iff in H as [[[[p n] g] note] [<- Hf]].
    destruct (typos_bounds t p n g note Hf) as [Hp [Hn [Hb _]]].
    apply (Hgen "Typographical"%string p n g note Hp Hn Hb (Item4 p n g note) (or_intror eq_refl)).
    reflexivity.
  - unfold df_foot, context_df in H. rewrite map_map in H.
    apply in_map_iff in H as [[[p n] g] [<- Hf]].
    destruct (footnote_dup_bounds t p n g Hf) as [Hp [Hn Hb]].
    apply (Hgen "Duplicated footnote"%string p n g EmptyString Hp Hn Hb (Item3 p n g) (or_introl eq_refl)).
    reflexivity.
Qed.

Lemma report_rows_show_span_witness :
  0 <= 1 < 2 /\ 2 <= 5 /\
  exists a b, [20320; 44; 22909; 44; 21966] =
    a ++ replace_newline (slice [20320; 44; 22909; 44; 21966] 1 (2 - 1)) ++ b.
Proof.
  exact (report_rows_show_span [20320; 44; 22909; 44; 21966]
           {| r_issue := "Typographical"; r_detail := string_codes note_ascii;
              r_start := 1; r_end := 2; r_context := [20320; 44; 22909; 44; 21966] |}
           ltac:(vm_compute; left; reflexivity)).
Defined.
